(** * dev-ops-agent: the review and fix pipeline

    A shallow embedding of [ai-analyzer.ts] (the reply parsers
    [parseAnalysisResponse], [parseFixResponse] and [parseArchitectureResponse],
    the chunk loop [analyzeCode], [generateFix]), of [ai-agent.ts] (the issue
    merger [mergeIssues], the fix loop [applyAIFixes], [reviewCode] with the
    two analysis runs, [findFiles], [generateReport]), of [analyzer.ts] (the
    eight rules and [analyzeFile]) and of [agent.ts] ([reviewCode],
    [applyFixes], [applyFixesToFile]), followed by the properties established
    about them.

    Conventions.
    - A text (a JavaScript string) is a Rocq [string] holding the UTF-8 bytes of
      the text; every character the code inspects ('{', '}', '[', ']', ',', ':',
      the quote, white space, the letters of the patterns) is ASCII or has a
      fixed byte sequence.
    - A thrown exception is a value [Throw e] of the type [exn]; [try_catch]
      is the [try { } catch { }] statement.
    - A JSON number keeps its exact decimal value [mantissa * 10 ^ exponent];
      this is the value JavaScript holds whenever it is representable as a
      double, as every integer below 2^53 is.
    - [ai-analyzer.ts] builds its results from a reply typed [any]: its
      records keep the members copied from the reply as JavaScript values.
      [ai-agent.ts], [analyzer.ts] and [agent.ts] are modelled at the
      interfaces they declare ([CodeIssue], [AIFixResult], [ReviewReport]),
      with integer line numbers and confidences, and the model analyzer that
      [ai-agent.ts] calls is a parameter of these types.
    - The inference service, the file search and the file system are
      parameters: a function from requests to replies or rejections, a
      function from a pattern to the files found or a rejection, and a finite
      map from paths to texts with the set of paths that reject a write.
      Console output is not modelled. *)

From Stdlib Require Import ZArith Ascii String List Sorted Lia.
From stdpp Require Import base option list strings pretty gmap.
From Equations Require Import Equations.

Set Warnings "-register-all".

Open Scope string_scope.
Open Scope nat_scope.
Open Scope list_scope.

(** ** Exceptions *)

Inductive exception : Type :=
| Error (msg : string)        (* [new Error(msg)] *)
| SyntaxError                 (* raised by [JSON.parse] *)
| TypeError                   (* property read of null, call of a non-function *)
| ServiceError (msg : string) (* a rejected request of the inference service *)
| IOError (msg : string).     (* a rejected [fs] promise *)

Inductive exn (A : Type) : Type :=
| Ok (a : A)
| Throw (e : exception).
Arguments Ok {A} a.
Arguments Throw {A} e.

Definition bind {A B : Type} (m : exn A) (k : A -> exn B) : exn B :=
  match m with
  | Ok a => k a
  | Throw e => Throw e
  end.

Notation "'let*' x ':=' m 'in' k" := (bind m (fun x => k))
  (at level 10, x name, m at level 100, k at level 200, only parsing).

(** [try { body } catch (error) { handler }] *)
Definition try_catch {A : Type} (body : exn A) (handler : exception -> exn A) : exn A :=
  match body with
  | Ok a => Ok a
  | Throw e => handler e
  end.

(** A value together with the equation that it is the value of [a]: lets a
    definition by cases keep what the case says about [a]. *)
Definition inspect {A : Type} (a : A) : {b : A | a = b} := exist _ a eq_refl.

(** ** Text primitives *)

Definition dquote : ascii := "034"%char.

(** [(s.match(/c/g) || []).length] for a one-character pattern [c]. *)
Fixpoint count_char (c : ascii) (s : string) : nat :=
  match s with
  | EmptyString => 0
  | String d r => (if (d =? c)%char then 1 else 0) + count_char c r
  end.

(** [s.repeat(n)] *)
Fixpoint repeat_string (s : string) (n : nat) : string :=
  match n with
  | O => ""
  | S n' => s +:+ repeat_string s n'
  end.

(** The longest prefix of [s] that ends with '}' (the greedy [[\s\S]*\}]). *)
Fixpoint up_to_last_close (s : string) : option string :=
  match s with
  | EmptyString => None
  | String c r =>
      match up_to_last_close r with
      | Some p => Some (String c p)
      | None => if (c =? "}")%char then Some (String c EmptyString) else None
      end
  end.

(** [response.match(/\{[\s\S]*\}/)]: the text from the first '{' to the last
    '}' after it; [None] is the [null] of a failed match. *)
Fixpoint jsonMatch (response : string) : option string :=
  match response with
  | EmptyString => None
  | String c r =>
      if (c =? "{")%char
      then p ← up_to_last_close r; Some (String c p)
      else jsonMatch r
  end.

(** The class [\s] (ECMAScript WhiteSpace and LineTerminator) in UTF-8: the
    characters of one, two and three bytes, by their byte values. *)
Definition space1 (n : nat) : bool :=
  (n =? 9) || (n =? 10) || (n =? 11) || (n =? 12) || (n =? 13) || (n =? 32).

Definition space2 (n n2 : nat) : bool :=
  (n =? 194) && (n2 =? 160).                                  (* U+00A0 *)

Definition space3 (n n2 n3 : nat) : bool :=
  ((n =? 225) && (n2 =? 154) && (n3 =? 128))                  (* U+1680 *)
  || ((n =? 226) && (n2 =? 128)
      && (((128 <=? n3) && (n3 <=? 138))                      (* U+2000..U+200A *)
          || (n3 =? 168) || (n3 =? 169)                       (* U+2028, U+2029 *)
          || (n3 =? 175)))                                    (* U+202F *)
  || ((n =? 226) && (n2 =? 129) && (n3 =? 159))               (* U+205F *)
  || ((n =? 227) && (n2 =? 128) && (n3 =? 128))               (* U+3000 *)
  || ((n =? 239) && (n2 =? 187) && (n3 =? 191)).              (* U+FEFF *)

(** [s] matches [\s*$]: white space up to the end of the text. *)
Fixpoint all_space (s : string) : bool :=
  match s with
  | EmptyString => true
  | String c r =>
      if space1 (nat_of_ascii c) then all_space r
      else
        match r with
        | String c2 r2 =>
            if space2 (nat_of_ascii c) (nat_of_ascii c2) then all_space r2
            else
              match r2 with
              | String c3 r3 =>
                  if space3 (nat_of_ascii c) (nat_of_ascii c2) (nat_of_ascii c3)
                  then all_space r3
                  else false
              | EmptyString => false
              end
        | EmptyString => false
        end
  end.

(** [s.replace(/,\s*$/, '')]: the leftmost ',' that is followed by white
    space only, up to the end of the text, is removed together with it. *)
Fixpoint strip_trailing_comma (s : string) : string :=
  match s with
  | EmptyString => EmptyString
  | String c r =>
      if (c =? ",")%char && all_space r then EmptyString
      else String c (strip_trailing_comma r)
  end.

(** ** Lines and prefixes *)

Definition newline : ascii := "010"%char.

(** [s.split('\n')]: the empty text has one line, the empty one. *)
Fixpoint split_lines (s : string) : list string :=
  match s with
  | EmptyString => [EmptyString]
  | String c r =>
      if (c =? newline)%char then EmptyString :: split_lines r
      else
        match split_lines r with
        | l :: ls => String c l :: ls
        | [] => [String c EmptyString]
        end
  end.

(** [lines.join('\n')] *)
Fixpoint join_lines (lines : list string) : string :=
  match lines with
  | [] => EmptyString
  | [l] => l
  | l :: rest => l +:+ String newline (join_lines rest)
  end.

(** [s.trimStart()]: the white space of the class [\s] at the head of [s]
    is dropped. *)
Fixpoint trimStart (s : string) : string :=
  match s with
  | EmptyString => EmptyString
  | String c r =>
      if space1 (nat_of_ascii c) then trimStart r
      else
        match r with
        | String c2 r2 =>
            if space2 (nat_of_ascii c) (nat_of_ascii c2) then trimStart r2
            else
              match r2 with
              | String c3 r3 =>
                  if space3 (nat_of_ascii c) (nat_of_ascii c2) (nat_of_ascii c3)
                  then trimStart r3
                  else s
              | EmptyString => s
              end
        | EmptyString => s
        end
  end.

(** [s.trimEnd()] *)
Fixpoint trimEnd (s : string) : string :=
  if all_space s then EmptyString
  else
    match s with
    | EmptyString => EmptyString
    | String c r => String c (trimEnd r)
    end.

(** [s.trim()] *)
Definition trim (s : string) : string := trimEnd (trimStart s).

(** [s.startsWith(p)] *)
Definition startsWith (s p : string) : bool := String.prefix p s.

(** [s.endsWith(p)]: a tail of [s] is [p]. *)
Fixpoint endsWith (s p : string) : bool :=
  String.eqb s p
  || match s with
     | EmptyString => false
     | String _ r => endsWith r p
     end.

(** [s.length]: the number of UTF-16 code units of a text held in UTF-8. A
    continuation byte counts for nothing, the first byte of a character of
    four bytes for the two units of its surrogate pair. *)
Fixpoint utf16_length (s : string) : nat :=
  match s with
  | EmptyString => 0
  | String c r =>
      let n := nat_of_ascii c in
      (if n <? 128 then 1 else if n <? 192 then 0 else if n <? 240 then 1 else 2)
      + utf16_length r
  end.

(** ** [RegExp]

    The regular expressions of this program are sequences of literal
    characters, classes, classes under [*], [+] or [?], and the assertion
    [\b]. [match_here] gives the rest of the text after the match that the
    backtracking of ECMAScript finds first (a greedy quantifier takes the
    longest run first). A negated class stands for one byte: this is exact
    under [*], where the source uses it. With the flag [i] the letters of
    ASCII match in either case, which is what the flag does to the ASCII
    letters of a pattern without the flag [u]. *)

Module RegExp.

Inductive class : Type :=
| space                      (* [\s] *)
| word                       (* [\w] *)
| oneOf (chars : string)     (* a class of listed characters *)
| noneOf (chars : string).   (* a negated class of listed characters *)

Inductive atom : Type :=
| chr (c : ascii)            (* a literal character *)
| one (k : class)
| star (k : class)
| plus (k : class)
| opt (k : class)
| wordBoundary.              (* [\b] *)

Definition regex : Type := list atom.

(** The literal text [s]. *)
Fixpoint lit (s : string) : regex :=
  match s with
  | EmptyString => []
  | String c r => chr c :: lit r
  end.

Definition is_word (c : ascii) : bool :=
  let n := nat_of_ascii c in
  ((48 <=? n) && (n <=? 57)) || ((65 <=? n) && (n <=? 90))
  || ((97 <=? n) && (n <=? 122)) || (n =? 95).

(** The upper case of an ASCII letter. *)
Definition upper (c : ascii) : ascii :=
  let n := nat_of_ascii c in
  if (97 <=? n) && (n <=? 122) then ascii_of_nat (n - 32) else c.

Definition same (ignoreCase : bool) (c d : ascii) : bool :=
  if ignoreCase then (upper c =? upper d)%char else (c =? d)%char.

Fixpoint member (ignoreCase : bool) (c : ascii) (chars : string) : bool :=
  match chars with
  | EmptyString => false
  | String d r => same ignoreCase d c || member ignoreCase c r
  end.

(** A character of one, two or three bytes is in the class. *)
Definition single (ignoreCase : bool) (k : class) (c : ascii) : bool :=
  match k with
  | space => space1 (nat_of_ascii c)
  | word => is_word c
  | oneOf chars => member ignoreCase c chars
  | noneOf chars => negb (member ignoreCase c chars)
  end.

Definition double (k : class) (c c2 : ascii) : bool :=
  match k with
  | space => space2 (nat_of_ascii c) (nat_of_ascii c2)
  | _ => false
  end.

Definition triple (k : class) (c c2 c3 : ascii) : bool :=
  match k with
  | space => space3 (nat_of_ascii c) (nat_of_ascii c2) (nat_of_ascii c3)
  | _ => false
  end.

(** One character of the class at the head of the text: its last byte and
    the rest. *)
Definition step (ignoreCase : bool) (k : class) (s : string) : option (ascii * string) :=
  match s with
  | String c r =>
      if single ignoreCase k c then Some (c, r)
      else
        match r with
        | String c2 r2 =>
            if double k c c2 then Some (c2, r2)
            else
              match r2 with
              | String c3 r3 => if triple k c c2 c3 then Some (c3, r3) else None
              | EmptyString => None
              end
        | EmptyString => None
        end
  | EmptyString => None
  end.

(** The runs of characters of the class at the head of the text, the
    longest first: the byte before the rest, and the rest. *)
Fixpoint runs (ignoreCase : bool) (k : class) (prev : option ascii) (s : string)
  : list (option ascii * string) :=
  match s with
  | EmptyString => [(prev, s)]
  | String c r =>
      (if single ignoreCase k c then runs ignoreCase k (Some c) r
       else
         match r with
         | String c2 r2 =>
             if double k c c2 then runs ignoreCase k (Some c2) r2
             else
               match r2 with
               | String c3 r3 =>
                   if triple k c c2 c3 then runs ignoreCase k (Some c3) r3 else []
               | EmptyString => []
               end
         | EmptyString => []
         end)
      ++ [(prev, s)]
  end.

(** The first alternative that succeeds. *)
Fixpoint first_of {A B : Type} (f : A -> option B) (l : list A) : option B :=
  match l with
  | [] => None
  | x :: r =>
      match f x with
      | Some y => Some y
      | None => first_of f r
      end
  end.

Definition word_before (prev : option ascii) : bool :=
  match prev with
  | Some c => is_word c
  | None => false
  end.

Definition word_after (s : string) : bool :=
  match s with
  | String c _ => is_word c
  | EmptyString => false
  end.

(** The pattern matches at the head of [s], which follows the byte [prev]:
    the rest after the match. *)
Fixpoint match_here (ignoreCase : bool) (r : regex) (prev : option ascii) (s : string)
  : option string :=
  match r with
  | [] => Some s
  | a :: r' =>
      let continue := fun '(p, t) => match_here ignoreCase r' p t in
      match a with
      | chr c =>
          match s with
          | String d t => if same ignoreCase c d then continue (Some d, t) else None
          | EmptyString => None
          end
      | one k =>
          match step ignoreCase k s with
          | Some (p, t) => continue (Some p, t)
          | None => None
          end
      | star k => first_of continue (runs ignoreCase k prev s)
      | plus k =>
          match step ignoreCase k s with
          | Some (p, t) => first_of continue (runs ignoreCase k (Some p) t)
          | None => None
          end
      | opt k =>
          match step ignoreCase k s with
          | Some (p, t) =>
              match continue (Some p, t) with
              | Some rest => Some rest
              | None => continue (prev, s)
              end
          | None => continue (prev, s)
          end
      | wordBoundary =>
          if xorb (word_before prev) (word_after s) then continue (prev, s) else None
      end
  end.

(** The pattern matches somewhere in [s], which follows the byte [prev]. *)
Fixpoint test_from (ignoreCase : bool) (r : regex) (prev : option ascii) (s : string)
  : bool :=
  match match_here ignoreCase r prev s with
  | Some _ => true
  | None =>
      match s with
      | String c t => test_from ignoreCase r (Some c) t
      | EmptyString => false
      end
  end.

(** [/r/.test(s)], and [/r/i.test(s)] with [ignoreCase]. *)
Definition test (ignoreCase : bool) (r : regex) (s : string) : bool :=
  test_from ignoreCase r None s.

Fixpoint replace_from (r : regex) (by_ : string) (prev : option ascii) (s : string)
  : string :=
  match match_here false r prev s with
  | Some rest => by_ +:+ rest
  | None =>
      match s with
      | String c t => String c (replace_from r by_ (Some c) t)
      | EmptyString => EmptyString
      end
  end.

(** [s.replace(/r/, by_)]: the first match is replaced ([by_] holds no
    [$]). *)
Definition replace (r : regex) (by_ : string) (s : string) : string :=
  replace_from r by_ None s.

End RegExp.

(** ** JavaScript values, as [JSON.parse] builds them *)

Record number : Type := Num { mantissa : Z; exponent : Z }.

Inductive value : Type :=
| JUndefined
| JNull
| JBool (b : bool)
| JNumber (n : number)
| JString (s : string)
| JArray (items : list value)
| JObject (members : list (string * value)).

(** ToBoolean *)
Definition truthy (v : value) : bool :=
  match v with
  | JUndefined | JNull => false
  | JBool b => b
  | JNumber n => negb (mantissa n =? 0)%Z
  | JString s => negb (String.eqb s "")
  | JArray _ | JObject _ => true
  end.

(** [a || b] *)
Definition or_else (a b : value) : value := if truthy a then a else b.

(** The last member named [k]: a repeated key overwrites the earlier one. *)
Fixpoint lookup_member (k : string) (members : list (string * value)) : option value :=
  match members with
  | [] => None
  | (k', v) :: r =>
      match lookup_member k r with
      | Some w => Some w
      | None => if String.eqb k k' then Some v else None
      end
  end.

(** [v.k] for the member names this program reads (none of them is defined
    on a prototype): a [TypeError] on [null] and [undefined], the member of an
    object, [undefined] everywhere else. *)
Definition prop (v : value) (k : string) : exn value :=
  match v with
  | JUndefined | JNull => Throw TypeError
  | JObject members => Ok (default JUndefined (lookup_member k members))
  | _ => Ok JUndefined
  end.

(** [v === s] for a string literal [s]. *)
Definition is_string (v : value) (s : string) : bool :=
  match v with
  | JString t => String.eqb t s
  | _ => false
  end.

(** ** [JSON.parse]

    A recursive-descent reading of the JSON grammar of ECMA-404, which is what
    [JSON.parse] accepts. The fuel bounds the nesting of calls only: what is
    parsed with any fuel is parsed with the fuel that [JSON_parse] gives
    ([JSON_parse_fuel] below). *)

Definition json_ws (c : ascii) : bool :=
  let n := nat_of_ascii c in (n =? 32) || (n =? 9) || (n =? 10) || (n =? 13).

Fixpoint skip_ws (s : string) : string :=
  match s with
  | String c r => if json_ws c then skip_ws r else s
  | EmptyString => s
  end.

Definition digit_of (c : ascii) : option Z :=
  let n := nat_of_ascii c in
  if (48 <=? n) && (n <=? 57) then Some (Z.of_nat (n - 48)) else None.

Definition hex_of (c : ascii) : option N :=
  let n := nat_of_ascii c in
  if (48 <=? n) && (n <=? 57) then Some (N.of_nat (n - 48))
  else if (65 <=? n) && (n <=? 70) then Some (N.of_nat (n - 55))
  else if (97 <=? n) && (n <=? 102) then Some (N.of_nat (n - 87))
  else None.

(** A maximal run of decimal digits: its value continued from [acc], how many
    digits were read, and the rest of the text. *)
Fixpoint take_digits (acc : Z) (s : string) : Z * nat * string :=
  match s with
  | String c r =>
      match digit_of c with
      | Some d =>
          let '(v, k, rest) := take_digits (acc * 10 + d) r in (v, S k, rest)
      | None => (acc, 0, s)
      end
  | EmptyString => (acc, 0, s)
  end.

(** The exponent part [[eE][+-]?[0-9]+], when present. *)
Definition parse_exponent (s : string) : option (Z * string) :=
  match s with
  | String c r =>
      if (c =? "e")%char || (c =? "E")%char then
        let '(neg, r1) :=
          match r with
          | String sg r' =>
              if (sg =? "-")%char then (true, r')
              else if (sg =? "+")%char then (false, r')
              else (false, r)
          | EmptyString => (false, r)
          end in
        let '(e, k, rest) := take_digits 0 r1 in
        if (k =? 0) then None else Some (if neg then (- e)%Z else e, rest)
      else Some (0%Z, s)
  | EmptyString => Some (0%Z, s)
  end.

(** The fraction part [\.[0-9]+], when present, continuing the mantissa. *)
Definition parse_fraction (m : Z) (s : string) : option (Z * nat * string) :=
  match s with
  | String c r =>
      if (c =? ".")%char then
        let '(m', k, rest) := take_digits m r in
        if (k =? 0) then None else Some (m', k, rest)
      else Some (m, 0, s)
  | EmptyString => Some (m, 0, s)
  end.

(** The digits of a number, after its sign: 0 or a digit run that does not
    start with 0, then an optional fraction and an optional exponent. *)
Definition parse_unsigned (neg : bool) (s : string) : option (number * string) :=
  match s with
  | String c r =>
      d ← digit_of c;
      let '(m, r1) :=
        if (d =? 0)%Z then (0%Z, r)
        else let '(v, _, rest) := take_digits d r in (v, rest) in
      '(m', k, r2) ← parse_fraction m r1;
      '(e, r3) ← parse_exponent r2;
      Some (Num (if neg then - m' else m')%Z (e - Z.of_nat k)%Z, r3)
  | EmptyString => None
  end.

(** A number: an optional '-' and its digits. *)
Definition parse_number (s : string) : option (number * string) :=
  match s with
  | String c r => if (c =? "-")%char then parse_unsigned true r else parse_unsigned false s
  | EmptyString => None
  end.

(** The decoded pieces of a string literal: a byte copied from the text or
    the UTF-16 code unit of an escape. *)
Inductive piece : Type :=
| Raw (c : ascii)
| Unit (u : N).

Definition byte (n : N) : ascii := ascii_of_N n.

(** UTF-8 of a code point below 2^21. *)
Definition utf8 (u : N) : string :=
  if (u <? 128)%N then String (byte u) ""
  else if (u <? 2048)%N then
    String (byte (192 + u / 64)) (String (byte (128 + u mod 64)) "")
  else if (u <? 65536)%N then
    String (byte (224 + u / 4096))
      (String (byte (128 + (u / 64) mod 64)) (String (byte (128 + u mod 64)) ""))
  else
    String (byte (240 + u / 262144))
      (String (byte (128 + (u / 4096) mod 64))
         (String (byte (128 + (u / 64) mod 64)) (String (byte (128 + u mod 64)) ""))).

Definition high_surrogate (u : N) : bool := (55296 <=? u)%N && (u <=? 56319)%N.
Definition low_surrogate (u : N) : bool := (56320 <=? u)%N && (u <=? 57343)%N.

(** The text of a decoded literal; a surrogate pair is one code point. *)
Fixpoint encode_pieces (ps : list piece) : string :=
  match ps with
  | [] => ""
  | Raw c :: r => String c (encode_pieces r)
  | Unit hi :: r =>
      match r with
      | Unit lo :: r' =>
          if high_surrogate hi && low_surrogate lo
          then utf8 (65536 + (hi - 55296) * 1024 + (lo - 56320)) +:+ encode_pieces r'
          else utf8 hi +:+ encode_pieces r
      | _ => utf8 hi +:+ encode_pieces r
      end
  end.

Definition simple_escape (c : ascii) : option N :=
  if (c =? dquote)%char then Some 34%N
  else if (c =? "\")%char then Some 92%N
  else if (c =? "/")%char then Some 47%N
  else if (c =? "b")%char then Some 8%N
  else if (c =? "f")%char then Some 12%N
  else if (c =? "n")%char then Some 10%N
  else if (c =? "r")%char then Some 13%N
  else if (c =? "t")%char then Some 9%N
  else None.

(** The body of a string literal after its opening quote, up to and
    including the closing quote. *)
Fixpoint parse_string_body (s : string) : option (list piece * string) :=
  match s with
  | EmptyString => None
  | String c r =>
      if (c =? dquote)%char then Some ([], r)
      else if (c =? "\")%char then
        match r with
        | String e r1 =>
            match simple_escape e with
            | Some u => '(ps, rest) ← parse_string_body r1; Some (Unit u :: ps, rest)
            | None =>
                if (e =? "u")%char then
                  match r1 with
                  | String h1 (String h2 (String h3 (String h4 r2))) =>
                      a ← hex_of h1; b ← hex_of h2; c' ← hex_of h3; d ← hex_of h4;
                      '(ps, rest) ← parse_string_body r2;
                      Some (Unit (((a * 16 + b) * 16 + c') * 16 + d)%N :: ps, rest)
                  | _ => None
                  end
                else None
            end
        | EmptyString => None
        end
      else if nat_of_ascii c <? 32 then None
      else '(ps, rest) ← parse_string_body r; Some (Raw c :: ps, rest)
  end.

Definition parse_string (s : string) : option (string * string) :=
  '(ps, rest) ← parse_string_body s; Some (encode_pieces ps, rest).

(** [s] starts with the word [w]: the rest after it. *)
Fixpoint expect (w s : string) : option string :=
  match w with
  | EmptyString => Some s
  | String c w' =>
      match s with
      | String d r => if (c =? d)%char then expect w' r else None
      | EmptyString => None
      end
  end.

Fixpoint parse_value (fuel : nat) (s : string) {struct fuel} : option (value * string) :=
  match fuel with
  | O => None
  | S fuel' =>
      match skip_ws s with
      | EmptyString => None
      | String c r =>
          if (c =? "{")%char then
            match skip_ws r with
            | String c' r' =>
                if (c' =? "}")%char then Some (JObject [], r')
                else '(ms, rest) ← parse_members fuel' r; Some (JObject ms, rest)
            | EmptyString => None
            end
          else if (c =? "[")%char then
            match skip_ws r with
            | String c' r' =>
                if (c' =? "]")%char then Some (JArray [], r')
                else '(vs, rest) ← parse_elements fuel' r; Some (JArray vs, rest)
            | EmptyString => None
            end
          else if (c =? dquote)%char then
            '(str, rest) ← parse_string r; Some (JString str, rest)
          else if (c =? "t")%char then
            rest ← expect "rue" r; Some (JBool true, rest)
          else if (c =? "f")%char then
            rest ← expect "alse" r; Some (JBool false, rest)
          else if (c =? "n")%char then
            rest ← expect "ull" r; Some (JNull, rest)
          else
            '(n, rest) ← parse_number (String c r); Some (JNumber n, rest)
      end
  end
with parse_elements (fuel : nat) (s : string) {struct fuel} : option (list value * string) :=
  match fuel with
  | O => None
  | S fuel' =>
      '(v, r) ← parse_value fuel' s;
      match skip_ws r with
      | String c r' =>
          if (c =? ",")%char then
            '(vs, rest) ← parse_elements fuel' r'; Some (v :: vs, rest)
          else if (c =? "]")%char then Some ([v], r')
          else None
      | EmptyString => None
      end
  end
with parse_members (fuel : nat) (s : string) {struct fuel}
  : option (list (string * value) * string) :=
  match fuel with
  | O => None
  | S fuel' =>
      match skip_ws s with
      | String q r0 =>
          if (q =? dquote)%char then
            '(k, r1) ← parse_string r0;
            match skip_ws r1 with
            | String colon r2 =>
                if (colon =? ":")%char then
                  '(v, r3) ← parse_value fuel' r2;
                  match skip_ws r3 with
                  | String c r' =>
                      if (c =? ",")%char then
                        '(ms, rest) ← parse_members fuel' r'; Some ((k, v) :: ms, rest)
                      else if (c =? "}")%char then Some ([(k, v)], r')
                      else None
                  | EmptyString => None
                  end
                else None
            | EmptyString => None
            end
          else None
      | EmptyString => None
      end
  end.

(** [JSON.parse(text)]; [None] is the thrown [SyntaxError]. *)
Definition JSON_parse (text : string) : option value :=
  '(v, rest) ← parse_value (2 * String.length text) text;
  match skip_ws rest with
  | EmptyString => Some v
  | String _ _ => None
  end.

(** A JSON text written with ' for the quote character. *)
Fixpoint json (s : string) : string :=
  match s with
  | EmptyString => EmptyString
  | String c r => String (if (c =? "'")%char then dquote else c) (json r)
  end.

(** ** [types.ts] *)

Inductive IssueType : Type := error | warning | info.

Inductive Severity : Type := critical | high | medium | low.

#[global] Instance Severity_eq_dec : EqDecision Severity.
Proof. solve_decision. Defined.

(** ** [ai-analyzer.ts]: class [AIAnalyzer]

    The parsers build their results from a reply typed [any]: a member copied
    from the reply holds whatever value the reply gave it, so the records of
    this module keep such members as a [value]. *)

Module AIAnalyzer.

(** The object literal of lines 316-325, an element of [issues]. *)
Record CodeIssue : Type := {
  type : IssueType;
  severity : value;
  category : value;
  message : value;
  file : string;
  line : value;
  suggestedFix : value;
  autoFixable : value
}.

Record AIAnalysisResult : Type := {
  issues : list CodeIssue;
  summary : value;
  suggestions : value;
  architecturalInsights : value;
  hasMore : value            (* [JUndefined] when the member is absent *)
}.

Record AIFixResult : Type := {
  originalCode : string;
  fixedCode : value;
  explanation : value;
  confidence : value
}.

(** [throw e] when the option is empty. *)
Definition or_throw {A : Type} (o : option A) (e : exception) : exn A :=
  match o with
  | Some a => Ok a
  | None => Throw e
  end.

(** [items.map(f)] on a list of values, left to right. *)
Fixpoint map_exn {A : Type} (f : value -> exn A) (items : list value) : exn (list A) :=
  match items with
  | [] => Ok []
  | x :: r =>
      let* y := f x in
      let* ys := map_exn f r in
      Ok (y :: ys)
  end.

(** [arr.map(f)]: only an array has a [map] to call. *)
Definition array_map {A : Type} (arr : value) (f : value -> exn A) : exn (list A) :=
  match arr with
  | JArray items => map_exn f items
  | _ => Throw TypeError
  end.

(** [a.concat(v)]: an array argument is spread, any other value is appended. *)
Definition array_concat (a : list value) (v : value) : list value :=
  match v with
  | JArray items => a ++ items
  | _ => a ++ [v]
  end.

(** Lines 296-310: the catch block that closes an incomplete JSON text. *)
Definition closeIncomplete (jsonText : string) : string :=
  let openBraces := count_char "{" jsonText in
  let closeBraces := count_char "}" jsonText in
  let openBrackets := count_char "[" jsonText in
  let closeBrackets := count_char "]" jsonText in
  let jsonText :=
    if closeBrackets <? openBrackets
    then strip_trailing_comma jsonText +:+ repeat_string "]" (openBrackets - closeBrackets)
    else jsonText in
  if closeBraces <? openBraces
  then jsonText +:+ repeat_string "}" (openBraces - closeBraces)
  else jsonText.

(** Lines 316-325: one entry of the reply as a [CodeIssue]. *)
Definition toCodeIssue (filePath : string) (issue : value) : exn CodeIssue :=
  let* severity := prop issue "severity" in
  let* category := prop issue "category" in
  let* message := prop issue "message" in
  let* line := prop issue "line" in
  let* suggestedFix := prop issue "suggestedFix" in
  let* autoFixable := prop issue "autoFixable" in
  Ok {| type := if is_string severity "critical" || is_string severity "high"
                then error else warning;
        severity := severity;
        category := category;
        message := message;
        file := filePath;
        line := or_else line (JNumber (Num 1 0));
        suggestedFix := suggestedFix;
        autoFixable := or_else autoFixable (JBool false) |}.

(** Lines 316-333: the parsed reply as an [AIAnalysisResult]. *)
Definition toAnalysisResult (filePath : string) (parsed : value) : exn AIAnalysisResult :=
  let* rawIssues := prop parsed "issues" in
  let* issues := array_map (or_else rawIssues (JArray [])) (toCodeIssue filePath) in
  let* summary := prop parsed "summary" in
  let* suggestions := prop parsed "suggestions" in
  let* architecturalInsights := prop parsed "architecturalInsights" in
  let* hasMore := prop parsed "hasMore" in
  Ok {| issues := issues;
        summary := or_else summary (JString "AI analysis completed");
        suggestions := or_else suggestions (JArray []);
        architecturalInsights := or_else architecturalInsights (JArray []);
        hasMore := or_else hasMore (JBool false) |}.

(** The result of the catch block of lines 334-342. *)
Definition failedAnalysis : AIAnalysisResult :=
  {| issues := [];
     summary := JString "Failed to parse AI response";
     suggestions := JArray [];
     architecturalInsights := JArray [];
     hasMore := JUndefined |}.

Definition parseAnalysisResponse (response filePath : string) : exn AIAnalysisResult :=
  try_catch
    (let* jsonText := or_throw (jsonMatch response) (Error "No JSON found in response") in
     let jsonText :=
       match JSON_parse jsonText with
       | Some _ => jsonText
       | None => closeIncomplete jsonText
       end in
     let* parsed := or_throw (JSON_parse jsonText) SyntaxError in
     toAnalysisResult filePath parsed)
    (fun _ => Ok failedAnalysis).

(** The result of the catch block of lines 360-368. *)
Definition failedFix (originalCode : string) : AIFixResult :=
  {| originalCode := originalCode;
     fixedCode := JString originalCode;
     explanation := JString "Failed to generate fix";
     confidence := JNumber (Num 0 0) |}.

Definition parseFixResponse (response originalCode : string) : exn AIFixResult :=
  try_catch
    (let* jsonText := or_throw (jsonMatch response) (Error "No JSON found in response") in
     let* parsed := or_throw (JSON_parse jsonText) SyntaxError in
     let* fixedCode := prop parsed "fixedCode" in
     let* explanation := prop parsed "explanation" in
     let* confidence := prop parsed "confidence" in
     Ok {| originalCode := originalCode;
           fixedCode := or_else fixedCode (JString originalCode);
           explanation := or_else explanation (JString "No explanation provided");
           confidence := or_else confidence (JNumber (Num 0 0)) |})
    (fun _ => Ok (failedFix originalCode)).

(** *** The inference service *)

Record Context : Type := {
  projectType : option string;
  framework : option string
}.

(** What [buildAnalysisPrompt] builds its prompt from; the wording of the
    prompt is not modelled. *)
Record AnalysisPrompt : Type := {
  prompt_content : string;
  prompt_filePath : string;
  prompt_context : option Context;
  prompt_chunkNumber : nat
}.

Definition buildAnalysisPrompt (content filePath : string) (context : option Context)
    (chunkNumber : nat) : AnalysisPrompt :=
  {| prompt_content := content;
     prompt_filePath := filePath;
     prompt_context := context;
     prompt_chunkNumber := chunkNumber |}.

Inductive ContentBlock : Type :=
| TextBlock (text : string)
| OtherBlock.

Record Message : Type := { content : list ContentBlock }.

(** [message.content[0].type === 'text' ? message.content[0].text : ''] *)
Definition responseText (message : Message) : exn string :=
  match content message with
  | [] => Throw TypeError
  | TextBlock text :: _ => Ok text
  | OtherBlock :: _ => Ok ""
  end.

(** *** [analyzeCode] *)

(** The local variables of [analyzeCode]. *)
Record AnalysisState : Type := {
  allIssues : list CodeIssue;
  currentChunk : nat;
  hasMoreVar : value;
  summaryVar : value;
  suggestionsVar : list value;
  architecturalInsightsVar : list value
}.

Definition initialState : AnalysisState :=
  {| allIssues := [];
     currentChunk := 0;
     hasMoreVar := JBool true;
     summaryVar := JString "";
     suggestionsVar := [];
     architecturalInsightsVar := [] |}.

(** Lines 66-73: the reply of one chunk added to the variables. *)
Definition accumulate (st : AnalysisState) (result : AIAnalysisResult) : AnalysisState :=
  {| allIssues := allIssues st ++ issues result;
     currentChunk := S (currentChunk st);
     hasMoreVar := or_else (hasMore result) (JBool false);
     summaryVar := if truthy (summary result) then summary result else summaryVar st;
     suggestionsVar :=
       if truthy (suggestions result)
       then array_concat (suggestionsVar st) (suggestions result)
       else suggestionsVar st;
     architecturalInsightsVar :=
       if truthy (architecturalInsights result)
       then array_concat (architecturalInsightsVar st) (architecturalInsights result)
       else architecturalInsightsVar st |}.

(** The loop condition of line 50. *)
Definition continues (st : AnalysisState) : bool :=
  truthy (hasMoreVar st) && (currentChunk st <? 10).

Section analyzeCode.

(** [this.client.messages.create]: the reply to a request, or its rejection.
    The requests of one call of [analyzeCode] differ in their chunk number, so
    a function of the request covers every sequence of replies. *)
Variable client : AnalysisPrompt -> exn Message.
Variables (content filePath : string) (context : option Context).

(** Lines 51-73: the body of the loop. *)
Definition analyzeChunk (st : AnalysisState) : exn AnalysisState :=
  let prompt := buildAnalysisPrompt content filePath context (currentChunk st) in
  let* message := client prompt in
  let* response := responseText message in
  let* result := parseAnalysisResponse response filePath in
  Ok (accumulate st result).

(** Lines 50-78: the loop, with the prompts sent so far. *)
Equations? analyzeLoop (st : AnalysisState) (sent : list AnalysisPrompt)
  : exn AnalysisState * list AnalysisPrompt by wf (10 - currentChunk st) lt :=
analyzeLoop st sent with inspect (continues st) => {
  | exist _ false _ := (Ok st, sent);
  | exist _ true Hc with inspect (analyzeChunk st) => {
      | exist _ (Throw e) _ :=
          (Throw e, sent ++ [buildAnalysisPrompt content filePath context (currentChunk st)]);
      | exist _ (Ok st') Hs :=
          analyzeLoop st'
            (sent ++ [buildAnalysisPrompt content filePath context (currentChunk st)]) } }.
Proof.
  unfold continues in Hc. apply andb_prop in Hc as [_ Hlt].
  apply Nat.ltb_lt in Hlt.
  unfold analyzeChunk in Hs.
  destruct (client _); [|discriminate]. simpl in Hs.
  destruct (responseText _); [|discriminate]. simpl in Hs.
  destruct (parseAnalysisResponse _ _); [|discriminate]. simpl in Hs.
  injection Hs as <-. simpl. lia.
Qed.

(** [analyzeCode], with the prompts it sent. *)
Definition analyzeCode : exn AIAnalysisResult * list AnalysisPrompt :=
  let '(r, sent) := analyzeLoop initialState [] in
  (let* st := r in
   Ok {| issues := allIssues st;
         summary := or_else (summaryVar st) (JString "AI analysis completed");
         suggestions := JArray (suggestionsVar st);
         architecturalInsights := JArray (architecturalInsightsVar st);
         hasMore := JBool false |},
   sent).

End analyzeCode.

(** *** [parseArchitectureResponse], [generateFix] *)




(** What [buildFixPrompt] builds its prompt from; the wording of the prompt
    is not modelled. *)
Record FixPrompt : Type := {
  fix_code : string;
  fix_issue : CodeIssue;
  fix_context : option string
}.

(** [generateFix]: one request, and its reply parsed. [fixClient] is
    [this.client.messages.create] on the prompts of [buildFixPrompt]. *)
Definition generateFix (fixClient : FixPrompt -> exn Message)
    (code : string) (issue : CodeIssue) (context : option string) : exn AIFixResult :=
  let prompt := {| fix_code := code; fix_issue := issue; fix_context := context |} in
  let* message := fixClient prompt in
  let* response := responseText message in
  parseFixResponse response code.

End AIAnalyzer.

(** ** [Array.prototype.sort]

    The sort of ECMAScript 2019 is stable: with a consistent comparator the
    result is determined, and it is the one of this insertion sort. [cmp a b]
    is negative, zero or positive as [a] goes before, with or after [b]. *)

Section array_sort.

Context {A : Type} (cmp : A -> A -> Z).

Fixpoint sort_insert (x : A) (l : list A) : list A :=
  match l with
  | [] => [x]
  | y :: r => if (cmp x y <=? 0)%Z then x :: y :: r else y :: sort_insert x r
  end.

Fixpoint array_sort (l : list A) : list A :=
  match l with
  | [] => []
  | x :: r => sort_insert x (array_sort r)
  end.

End array_sort.

(** ** [ai-agent.ts]: class [AIDevOpsAgent]

    The agent handles issues and fix proposals at their declared types, the
    interfaces [CodeIssue] of [types.ts] and [AIFixResult] of
    [ai-analyzer.ts]; a line number and a confidence are integers. *)

Module AIDevOpsAgent.

Record CodeIssue : Type := {
  type : IssueType;
  severity : Severity;
  category : string;
  message : string;
  file : string;
  line : Z;
  column : option Z;
  code : option string;
  suggestedFix : option string;
  autoFixable : bool
}.

Record AIFixResult : Type := {
  originalCode : string;
  fixedCode : string;
  explanation : string;
  confidence : Z
}.

(** *** [mergeIssues] *)

(** The template [`${i.file}:${i.line}:${i.message}`]. *)
Definition issueKey (i : CodeIssue) : string :=
  file i +:+ ":" +:+ pretty (line i) +:+ ":" +:+ message i.

(** Lines 251-257: the loop over [aiIssues], on [merged] and [seen]. *)
Fixpoint addUnseen (aiIssues merged : list CodeIssue) (seen : gset string)
  : list CodeIssue :=
  match aiIssues with
  | [] => merged
  | issue :: rest =>
      let key := issueKey issue in
      if decide (key ∈ seen)
      then addUnseen rest merged seen
      else addUnseen rest (merged ++ [issue]) ({[key]} ∪ seen)
  end.

Definition severityOrder (s : Severity) : Z :=
  match s with
  | critical => 0
  | high => 1
  | medium => 2
  | low => 3
  end.

(** The comparator of lines 259-263. *)
Definition compareIssues (a b : CodeIssue) : Z :=
  let severityDiff := (severityOrder (severity a) - severityOrder (severity b))%Z in
  if (severityDiff =? 0)%Z then (line a - line b)%Z else severityDiff.

Definition mergeIssues (staticIssues aiIssues : list CodeIssue) : list CodeIssue :=
  let merged := staticIssues in
  let seen : gset string := list_to_set (map issueKey staticIssues) in
  array_sort compareIssues (addUnseen aiIssues merged seen).

(** *** [applyAIFixes] *)

(** The files on disk; a write to a path of [readOnly] is rejected. *)
Record FileSystem : Type := {
  files : gmap string string;
  readOnly : gset string
}.

(** [fs.readFile(path, 'utf-8')] *)
Definition readFile (fs : FileSystem) (path : string) : exn string :=
  match files fs !! path with
  | Some text => Ok text
  | None => Throw (IOError "ENOENT")
  end.

(** [fs.writeFile(path, data, 'utf-8')] *)
Definition writeFile (fs : FileSystem) (path data : string) : exn FileSystem :=
  if decide (path ∈ readOnly fs)
  then Throw (IOError "EACCES")
  else Ok {| files := <[path := data]> (files fs); readOnly := readOnly fs |}.

(** An element of [details]. *)
Record Detail : Type := {
  detail_file : string;
  detail_issue : string;
  detail_confidence : Z;
  detail_explanation : string
}.

(** The variables of [applyAIFixes] and the world it acts on: the disk and
    the number of fix proposals requested so far. *)
Record FixState : Type := {
  content : string;
  disk : FileSystem;
  fixed : nat;
  failed : nat;
  details : list Detail;
  requested : nat
}.

Definition countFailed (st : FixState) : FixState :=
  {| content := content st; disk := disk st; fixed := fixed st;
     failed := S (failed st); details := details st; requested := requested st |}.

Definition countRequest (st : FixState) : FixState :=
  {| content := content st; disk := disk st; fixed := fixed st;
     failed := failed st; details := details st; requested := S (requested st) |}.

Definition setContent (st : FixState) (text : string) : FixState :=
  {| content := text; disk := disk st; fixed := fixed st;
     failed := failed st; details := details st; requested := requested st |}.

Section applyAIFixes.

(** [this.aiAnalyzer.analyzeCode(content, file)]: the issues of the result. *)
Variable analyzeCode : string -> string -> exn (list CodeIssue).

(** [this.aiAnalyzer.generateFix(content, issue)]: the proposal given to the
    [n]-th request of the run, or the rejection of the request. *)
Variable generateFix : nat -> string -> CodeIssue -> exn AIFixResult.

(** Lines 115-126: the proposal [fix_] of an issue is applied. *)
Definition applied (st : FixState) (file : string) (issue : CodeIssue)
    (fix_ : AIFixResult) (disk' : FileSystem) : FixState :=
  {| content := fixedCode fix_;
     disk := disk';
     fixed := S (fixed st);
     failed := failed st;
     details := details st ++
       [{| detail_file := file;
           detail_issue := message issue;
           detail_confidence := confidence fix_;
           detail_explanation := explanation fix_ |}];
     requested := requested st |}.

(** The state a statement leaves: a [try] with a [catch] that cannot throw
    never passes an exception on. *)
Definition settled (st : FixState) (r : exn FixState) : FixState :=
  match r with
  | Ok st' => st'
  | Throw _ => st
  end.

(** Lines 109-134: one issue of the batch. No variable is assigned before
    a statement of the [try] block that can throw, so the [catch] block counts
    the failure on the state the iteration began with. *)
Definition fixIssue (file : string) (st : FixState) (issue : CodeIssue) : FixState :=
  let n := requested st in
  let st := countRequest st in
  settled st
    (try_catch
       (let* fix_ := generateFix n (content st) issue in
        if (70 <? confidence fix_)%Z then
          let* disk' := writeFile (disk st) file (fixedCode fix_) in
          Ok (applied st file issue fix_ disk')
        else Ok (countFailed st))
       (fun _ => Ok (countFailed st))).

(** Lines 108-135: the batch of one file. *)
Definition fixIssues (file : string) (fixableIssues : list CodeIssue) (st : FixState)
  : FixState :=
  fold_left (fixIssue file) fixableIssues st.

Definition fixable (issue : CodeIssue) : bool :=
  match severity issue with
  | high | critical => true
  | _ => false
  end.

(** Lines 95-139: one file. *)
Definition fixFile (st : FixState) (file : string) : FixState :=
  settled st
    (try_catch
       (let* text := readFile (disk st) file in
        let st := setContent st text in
        let* result := analyzeCode text file in
        let fixableIssues := filter fixable result in
        match fixableIssues with
        | [] => Ok st
        | _ => Ok (fixIssues file fixableIssues st)
        end)
       (fun _ => Ok (countFailed st))).



End applyAIFixes.

(** *** [generateReport] *)

(** The member [summary] of a [ReviewReport]. *)
Record ReportSummary : Type := {
  totalIssues : nat;
  criticalIssues : nat;
  highIssues : nat;
  mediumIssues : nat;
  lowIssues : nat;
  autoFixableIssues : nat
}.

Record ReviewReport : Type := {
  report_summary : ReportSummary;
  report_issues : list CodeIssue;
  filesAnalyzed : nat;
  timestamp : string
}.

(** [issues.filter(i => i.severity === s).length] *)
Definition countSeverity (s : Severity) (issues : list CodeIssue) : nat :=
  length (filter (fun i => severity i = s) issues).

(** [generateReport]; [now] is [new Date().toISOString()]. The function
    is the same in [agent.ts]. *)
Definition generateReport (now : string) (issues : list CodeIssue) (filesAnalyzed : nat)
  : ReviewReport :=
  {| report_summary :=
       {| totalIssues := length issues;
          criticalIssues := countSeverity critical issues;
          highIssues := countSeverity high issues;
          mediumIssues := countSeverity medium issues;
          lowIssues := countSeverity low issues;
          autoFixableIssues := length (filter (fun i => autoFixable i = true) issues) |};
     report_issues := issues;
     filesAnalyzed := filesAnalyzed;
     timestamp := now |}.

(** *** [findFiles] *)

(** [[...new Set(a)]]: the elements of [a] in the order of their first
    occurrence; [seen] holds the elements already taken. *)
Fixpoint uniqueFrom (seen : gset string) (a : list string) : list string :=
  match a with
  | [] => []
  | x :: r =>
      if decide (x ∈ seen) then uniqueFrom seen r
      else x :: uniqueFrom ({[x]} ∪ seen) r
  end.

Definition unique (a : list string) : list string := uniqueFrom ∅ a.

Record AgentConfig : Type := {
  targetPath : string;
  filePatterns : list string;
  excludePatterns : list string
}.

(** The constructor's defaults: a member that the caller leaves out. *)
Definition makeConfig (target : string) (patterns excludes : option (list string))
  : AgentConfig :=
  {| targetPath := target;
     filePatterns := default ["**/*.ts"; "**/*.js"; "**/*.tsx"; "**/*.jsx"] patterns;
     excludePatterns :=
       default ["**/node_modules/**"; "**/dist/**"; "**/build/**"; "**/*.min.js"]
         excludes |}.

Section findFiles.

(** [path.join] and [glob] with the options of lines 274-278 (the patterns
    to ignore, no directories, absolute paths): the files that match a pattern,
    or the rejection of the search. *)
Variable pathJoin : string -> string -> string.
Variable glob : string -> list string -> exn (list string).

(** The loop of lines 273-280 over the patterns still to search. *)
Fixpoint globAll (config : AgentConfig) (patterns allFiles : list string)
  : exn (list string) :=
  match patterns with
  | [] => Ok allFiles
  | pattern :: rest =>
      let* found := glob pattern (excludePatterns config) in
      globAll config rest (allFiles ++ found)
  end.

Definition findFiles (config : AgentConfig) : exn (list string) :=
  let patterns := map (pathJoin (targetPath config)) (filePatterns config) in
  let* allFiles := globAll config patterns [] in
  Ok (unique allFiles).

End findFiles.

(** *** [reviewCode] *)

Inductive Mode : Type := fast | thorough | hybrid.

Definition maxFilesForAI : nat := 20.

Section reviewCode.

Variable pathJoin : string -> string -> string.
Variable glob : string -> list string -> exn (list string).

(** [this.staticAnalyzer.analyzeFile(content, file)] *)
Variable staticAnalyzer : string -> string -> list CodeIssue.

(** [this.aiAnalyzer], which the constructor sets when [useAI] and
    [aiApiKey] are given: the issues of the result of [analyzeCode]. *)
Variable aiAnalyzer : option (string -> string -> exn (list CodeIssue)).

(** The files on disk during the review. *)
Variable fs : FileSystem.

(** The body of the loop of [runStaticAnalysis]. *)
Definition analyzeStatically (allIssues : list CodeIssue) (file_ : string)
  : list CodeIssue :=
  match readFile fs file_ with
  | Ok content => allIssues ++ staticAnalyzer content file_
  | Throw _ => allIssues
  end.

Definition runStaticAnalysis (files_ : list string) : list CodeIssue :=
  fold_left analyzeStatically files_ [].

(** The body of the loop of [runAIAnalysis]. *)
Definition analyzeWithAI (analyzeCode : string -> string -> exn (list CodeIssue))
  (allIssues : list CodeIssue) (file_ : string) : list CodeIssue :=
  match
    (let* content := readFile fs file_ in
     if (50000 <? Z.of_nat (utf16_length content))%Z then Ok allIssues
     else
       let* found := analyzeCode content file_ in
       Ok (allIssues ++ found))
  with
  | Ok issues => issues
  | Throw _ => allIssues
  end.

Definition runAIAnalysis (files_ : list string) : list CodeIssue :=
  match aiAnalyzer with
  | None => []
  | Some analyzeCode =>
      let filesToAnalyze := take maxFilesForAI files_ in
      fold_left (analyzeWithAI analyzeCode) filesToAnalyze []
  end.

(** [reviewCode]: the report without its member [aiInsights]. The
    architecture review fills that member only; it raises nothing and
    changes no issue. [mode] is [this.aiOptions.mode]. *)
Definition reviewCode (now : string) (mode : option Mode) (config : AgentConfig)
  : exn ReviewReport :=
  let mode := default hybrid mode in
  let* files_ := findFiles pathJoin glob config in
  let allIssues : list CodeIssue := [] in
  let allIssues :=
    match mode with
    | fast | hybrid => runStaticAnalysis files_
    | thorough => allIssues
    end in
  let allIssues :=
    match mode with
    | thorough | hybrid =>
        match aiAnalyzer with
        | None => allIssues
        | Some _ => mergeIssues allIssues (runAIAnalysis files_)
        end
    | fast => allIssues
    end in
  Ok (generateReport now allIssues (length files_)).

End reviewCode.

End AIDevOpsAgent.

(** ** [analyzer.ts]: class [CodeAnalyzer] *)

Module CodeAnalyzer.

Import RegExp AIDevOpsAgent.

Record AnalyzerRule : Type := {
  ruleId : string;
  ruleName : string;
  ruleCategory : string;
  ruleSeverity : Severity;
  check : string -> string -> list CodeIssue
}.

(** [lines.forEach((line, index) => ...)] with a callback that pushes what
    [found line index] holds to [issues], and the loop of the rule
    [no-empty-catch], which has the lines after the current one at hand. *)
Fixpoint forEachLine (found : string -> nat -> list string -> list CodeIssue)
  (lines : list string) (index : nat) : list CodeIssue :=
  match lines with
  | [] => []
  | line_ :: rest => found line_ index rest ++ forEachLine found rest (S index)
  end.

(** The regular expressions of the rules, in the order of the source. *)
Definition evalCall : regex :=
  wordBoundary :: lit "eval" ++ [star space; chr "("].

Definition consoleLogCall : regex :=
  lit "console.log" ++ [star space; chr "("].

Definition varDeclaration : regex :=
  wordBoundary :: lit "var" ++ [plus space; plus word].

Definition varKeyword : regex :=
  wordBoundary :: lit "var" ++ [wordBoundary].

Definition anyType : regex :=
  chr ":" :: star space :: lit "any" ++ [wordBoundary].

Definition catchClause : regex :=
  lit "catch" ++ [star space; chr "("; star (noneOf ")"); chr ")"; star space; chr "{"].

(** The tail shared by the four patterns of credentials: white space, a
    colon or an equals sign, white space, a quote of either kind. *)
Definition assigned : regex :=
  [star space; one (oneOf ":="); star space;
   one (oneOf (String "'" (String dquote EmptyString)))].

Definition credentialPatterns : list regex :=
  [ lit "password" ++ assigned;
    lit "api" ++ opt (oneOf "_-") :: lit "key" ++ assigned;
    lit "secret" ++ assigned;
    lit "token" ++ assigned ].

Definition todoLine : regex := lit "//" ++ star space :: lit "TODO".

Definition todoBlock : regex := lit "/*" ++ star space :: lit "TODO".

Definition debuggerStatement : regex :=
  wordBoundary :: lit "debugger" ++ [wordBoundary].

(** [!line.trim().startsWith('//')] *)
Definition notCommented (line_ : string) : bool :=
  negb (startsWith (trim line_) "//").

Definition noEval : AnalyzerRule :=
  {| ruleId := "no-eval";
     ruleName := "Avoid eval() usage";
     ruleCategory := "Security";
     ruleSeverity := critical;
     check := fun content filePath =>
       let lines := split_lines content in
       forEachLine (fun line_ index _ =>
         if test false evalCall line_ then
           [ {| type := error;
                severity := critical;
                category := "Security";
                message := "Usage of eval() is dangerous and should be avoided";
                file := filePath;
                line := Z.of_nat index + 1;
                column := None;
                code := Some (trim line_);
                suggestedFix :=
                  Some "Consider using safer alternatives like JSON.parse() or Function constructor";
                autoFixable := false |} ]
         else []) lines 0 |}.

Definition noConsoleLog : AnalyzerRule :=
  {| ruleId := "no-console-log";
     ruleName := "Remove console.log statements";
     ruleCategory := "Code Quality";
     ruleSeverity := low;
     check := fun content filePath =>
       let lines := split_lines content in
       forEachLine (fun line_ index _ =>
         if test false consoleLogCall line_ && notCommented line_ then
           [ {| type := warning;
                severity := low;
                category := "Code Quality";
                message := "console.log should be removed in production code";
                file := filePath;
                line := Z.of_nat index + 1;
                column := None;
                code := Some (trim line_);
                suggestedFix := Some "Remove or replace with proper logging framework";
                autoFixable := true |} ]
         else []) lines 0 |}.

Definition noVar : AnalyzerRule :=
  {| ruleId := "no-var";
     ruleName := "Use let/const instead of var";
     ruleCategory := "Best Practices";
     ruleSeverity := medium;
     check := fun content filePath =>
       let lines := split_lines content in
       forEachLine (fun line_ index _ =>
         if test false varDeclaration line_ && notCommented line_ then
           [ {| type := warning;
                severity := medium;
                category := "Best Practices";
                message := "Use let or const instead of var";
                file := filePath;
                line := Z.of_nat index + 1;
                column := None;
                code := Some (trim line_);
                suggestedFix := Some (replace varKeyword "const" (trim line_));
                autoFixable := true |} ]
         else []) lines 0 |}.

Definition noAnyType : AnalyzerRule :=
  {| ruleId := "no-any-type";
     ruleName := "Avoid using any type in TypeScript";
     ruleCategory := "Type Safety";
     ruleSeverity := medium;
     check := fun content filePath =>
       if negb (endsWith filePath ".ts") && negb (endsWith filePath ".tsx") then []
       else
         let lines := split_lines content in
         forEachLine (fun line_ index _ =>
           if test false anyType line_ && notCommented line_ then
             [ {| type := warning;
                  severity := medium;
                  category := "Type Safety";
                  message := json "Avoid using 'any' type - use specific types instead";
                  file := filePath;
                  line := Z.of_nat index + 1;
                  column := None;
                  code := Some (trim line_);
                  suggestedFix :=
                    Some "Define a proper interface or use unknown with type guards";
                  autoFixable := false |} ]
           else []) lines 0 |}.

(** The loop of lines 132-135: the lines after the blank ones. *)
Fixpoint skipBlank (lines : list string) : list string :=
  match lines with
  | [] => []
  | line_ :: rest => if String.eqb (trim line_) "" then skipBlank rest else lines
  end.

Definition noEmptyCatch : AnalyzerRule :=
  {| ruleId := "no-empty-catch";
     ruleName := "Empty catch blocks";
     ruleCategory := "Error Handling";
     ruleSeverity := high;
     check := fun content filePath =>
       let lines := split_lines content in
       forEachLine (fun line_ i rest =>
         if test false catchClause line_ then
           match skipBlank rest with
           | next :: _ =>
               if String.eqb (trim next) "}" then
                 [ {| type := error;
                      severity := high;
                      category := "Error Handling";
                      message := "Empty catch block - errors are silently ignored";
                      file := filePath;
                      line := Z.of_nat i + 1;
                      column := None;
                      code := Some (trim line_);
                      suggestedFix := Some "Add error logging or proper error handling";
                      autoFixable := false |} ]
               else []
           | [] => []
           end
         else []) lines 0 |}.

Definition noHardcodedCredentials : AnalyzerRule :=
  {| ruleId := "no-hardcoded-credentials";
     ruleName := "Detect hardcoded credentials";
     ruleCategory := "Security";
     ruleSeverity := critical;
     check := fun content filePath =>
       let lines := split_lines content in
       let patterns := credentialPatterns in
       forEachLine (fun line_ index _ =>
         flat_map (fun pattern =>
           if test true pattern line_ && notCommented line_ then
             [ {| type := error;
                  severity := critical;
                  category := "Security";
                  message := "Possible hardcoded credential detected";
                  file := filePath;
                  line := Z.of_nat index + 1;
                  column := None;
                  code := Some (trim line_);
                  suggestedFix :=
                    Some "Use environment variables or secure secret management";
                  autoFixable := false |} ]
           else []) patterns) lines 0 |}.

Definition noTodoComments : AnalyzerRule :=
  {| ruleId := "no-todo-comments";
     ruleName := "Unresolved TODO comments";
     ruleCategory := "Code Quality";
     ruleSeverity := low;
     check := fun content filePath =>
       let lines := split_lines content in
       forEachLine (fun line_ index _ =>
         if test true todoLine line_ || test true todoBlock line_ then
           [ {| type := info;
                severity := low;
                category := "Code Quality";
                message := "Unresolved TODO comment found";
                file := filePath;
                line := Z.of_nat index + 1;
                column := None;
                code := Some (trim line_);
                suggestedFix := Some "Address the TODO or create a tracking issue";
                autoFixable := false |} ]
         else []) lines 0 |}.

Definition noDebugger : AnalyzerRule :=
  {| ruleId := "no-debugger";
     ruleName := "Remove debugger statements";
     ruleCategory := "Code Quality";
     ruleSeverity := high;
     check := fun content filePath =>
       let lines := split_lines content in
       forEachLine (fun line_ index _ =>
         if test false debuggerStatement line_ && notCommented line_ then
           [ {| type := error;
                severity := high;
                category := "Code Quality";
                message := "debugger statement should be removed";
                file := filePath;
                line := Z.of_nat index + 1;
                column := None;
                code := Some (trim line_);
                suggestedFix := Some "Remove the debugger statement";
                autoFixable := true |} ]
         else []) lines 0 |}.

(** [this.rules], as [initializeRules] sets it. *)
Definition rules : list AnalyzerRule :=
  [noEval; noConsoleLog; noVar; noAnyType; noEmptyCatch; noHardcodedCredentials;
   noTodoComments; noDebugger].

(** [analyzeFile]; its comparator is the one of [mergeIssues]. *)
Definition analyzeFile (content filePath : string) : list CodeIssue :=
  let allIssues := flat_map (fun rule => check rule content filePath) rules in
  array_sort compareIssues allIssues.

Definition getRules : list AnalyzerRule := rules.

End CodeAnalyzer.

(** ** [agent.ts]: class [DevOpsAgent] *)

Module DevOpsAgent.

Import RegExp AIDevOpsAgent.

Definition consoleLog : regex := lit "console.log".

(** The body of the loop of [applyFixesToFile] (lines 83-99), on [lines]:
    [splice(lineIndex, 1)] takes the line out, the assignment replaces it. *)
Definition fixLine (lines : list string) (issue : CodeIssue) : list string :=
  let lineIndex := (line issue - 1)%Z in
  if (0 <=? lineIndex)%Z && (lineIndex <? Z.of_nat (length lines))%Z then
    match lines !! Z.to_nat lineIndex with
    | Some line_ =>
        if String.eqb (category issue) "Code Quality" && test false consoleLog line_
        then delete (Z.to_nat lineIndex) lines
        else if String.eqb (category issue) "Best Practices"
                && test false CodeAnalyzer.varDeclaration line_
        then <[Z.to_nat lineIndex := replace CodeAnalyzer.varKeyword "const" line_]> lines
        else if String.eqb (category issue) "Code Quality"
                && test false CodeAnalyzer.debuggerStatement line_
        then delete (Z.to_nat lineIndex) lines
        else lines
    | None => lines
    end
  else lines.

Definition applyFixesToFile (content : string) (issues : list CodeIssue) : string :=
  let lines := split_lines content in
  let sortedIssues := array_sort (fun a b => (line b - line a)%Z) issues in
  join_lines (fold_left fixLine sortedIssues lines).

(** The world and the counters of [applyFixes]. *)
Record FixRun : Type := {
  disk : FileSystem;
  fixed : nat;
  failed : nat
}.

(** The body of the loop of [applyFixes] (lines 56-70). *)
Definition fixFile (run : FixRun) (file_ : string) : FixRun :=
  match
    (let* content := readFile (disk run) file_ in
     let issues := CodeAnalyzer.analyzeFile content file_ in
     let fixableIssues := filter (fun issue => autoFixable issue = true) issues in
     if 0 <? length fixableIssues then
       let fixedContent := applyFixesToFile content fixableIssues in
       let* written := writeFile (disk run) file_ fixedContent in
       Ok {| disk := written; fixed := fixed run + length fixableIssues;
             failed := failed run |}
     else Ok run)
  with
  | Ok run' => run'
  | Throw _ => {| disk := disk run; fixed := fixed run; failed := S (failed run) |}
  end.

(** The body of the loop of [reviewCode] (lines 31-41). *)
Definition reviewFile (fs : FileSystem) (allIssues : list CodeIssue) (file_ : string)
  : list CodeIssue :=
  match readFile fs file_ with
  | Ok content => allIssues ++ CodeAnalyzer.analyzeFile content file_
  | Throw _ => allIssues
  end.

Section agent.

Variable pathJoin : string -> string -> string.
Variable glob : string -> list string -> exn (list string).
Variable config : AgentConfig.

Definition reviewCode (now : string) (fs : FileSystem) : exn ReviewReport :=
  let* files_ := findFiles pathJoin glob config in
  let allIssues := fold_left (reviewFile fs) files_ [] in
  Ok (generateReport now allIssues (length files_)).

Definition applyFixes (fs : FileSystem) : exn FixRun :=
  let* files_ := findFiles pathJoin glob config in
  Ok (fold_left fixFile files_ {| disk := fs; fixed := 0; failed := 0 |}).

End agent.

End DevOpsAgent.

(** ** Vocabulary of the properties *)

Section vocabulary.

Import AIAnalyzer.

(** The reply holds no '{' ... '}' span at all. *)
Definition noStructure (response : string) : Prop :=
  jsonMatch response = None.

(** The span of the reply is no JSON text. *)
Definition unparseable (response : string) : Prop :=
  exists span, jsonMatch response = Some span /\ JSON_parse span = None.

(** The span of the reply is no JSON text, and neither is the span with its
    brackets closed. *)
Definition unrecoverable (response : string) : Prop :=
  exists span,
    jsonMatch response = Some span /\ JSON_parse span = None
    /\ JSON_parse (closeIncomplete span) = None.

(** The value [v] has no member [k]. *)
Definition absent (v : value) (k : string) : Prop := prop v k = Ok JUndefined.

(** The entries of the reply that [toAnalysisResult] maps over. *)
Definition entriesOf (parsed : value) (entries : list value) : Prop :=
  exists raw, prop parsed "issues" = Ok raw /\ or_else raw (JArray []) = JArray entries.

(** The kind of an issue by the severity [sev] that the reply gave it. *)
Definition kindOf (sev : value) : IssueType :=
  match sev with
  | JString s => if decide (s = "critical" \/ s = "high") then error else warning
  | _ => warning
  end.

(** A span closed by hand: [k] times ']' and then [m] times '}'. *)
Definition completed (span : string) (k m : nat) : string :=
  span +:+ repeat_string "]" k +:+ repeat_string "}" m.

(** The result of the chunk numbered [k]: the reply to its prompt, parsed. *)
Definition chunkResult (client : AnalysisPrompt -> exn Message)
    (content filePath : string) (context : option Context) (k : nat)
  : exn AIAnalysisResult :=
  let* message := client (buildAnalysisPrompt content filePath context k) in
  let* response := responseText message in
  parseAnalysisResponse response filePath.

Definition chunkIssues (client : AnalysisPrompt -> exn Message)
    (content filePath : string) (context : option Context) (k : nat)
  : list CodeIssue :=
  match chunkResult client content filePath context k with
  | Ok r => issues r
  | Throw _ => []
  end.

(** The service answers the request [prompt] with a message that has a
    block. *)
Definition answered (client : AnalysisPrompt -> exn Message) (prompt : AnalysisPrompt)
  : Prop :=
  exists message, client prompt = Ok message /\ AIAnalyzer.content message <> [].

End vocabulary.

Section merge_vocabulary.

Import AIDevOpsAgent.

(** [a] may stand before [b] in the output: a lower severity rank, or the
    same rank and a line that is not greater. *)
Definition before (a b : CodeIssue) : Prop :=
  (severityOrder (severity a) < severityOrder (severity b))%Z
  \/ (severity a = severity b /\ (line a <= line b)%Z).

(** The de-duplication key as the triple (file, line, message). *)
Definition keyTriple (i : CodeIssue) : string * Z * string :=
  (file i, line i, message i).

(** The elements of [secondary] whose key was not seen before them: neither
    among [earlier] nor at an earlier element of [secondary]. *)
Fixpoint unseenFrom (earlier : list string) (secondary : list CodeIssue)
  : list CodeIssue :=
  match secondary with
  | [] => []
  | x :: rest =>
      (if decide (issueKey x ∈ earlier) then [] else [x])
      ++ unseenFrom (earlier ++ [issueKey x]) rest
  end.

(** An issue of the file a.js, for the examples. *)
Definition issueAt (s : Severity) (l : Z) (m : string) : CodeIssue :=
  {| type := warning; severity := s; category := "Quality"; message := m;
     file := "a.js"; line := l; column := None; code := None;
     suggestedFix := None; autoFixable := false |}.


(** What [mergeIssues] keeps of [secondary], with the seen-set started from
    [primary]. *)
Definition keptOf (primary secondary : list CodeIssue) : list CodeIssue :=
  unseenFrom (map issueKey primary) secondary.

End merge_vocabulary.

Section fix_vocabulary.

Import AIDevOpsAgent.


(** A disk that holds [text] in the one file [path]. *)
Definition diskWith (path text : string) (locked : bool) : FileSystem :=
  {| files := {[path := text]};
     readOnly := if locked then {[path]} else ∅ |}.

(** The state in which the batch of a file with the text [text] starts. *)
Definition startOn (fs : FileSystem) (text : string) : FixState :=
  {| content := text; disk := fs; fixed := 0; failed := 0; details := [];
     requested := 0 |}.

(** A proposal with the patched text [text] and the confidence [conf]. *)
Definition proposal (text : string) (conf : Z) : AIFixResult :=
  {| originalCode := ""; fixedCode := text; explanation := "changed";
     confidence := conf |}.

(** A service that gives the [n]-th request of a run the [n]-th entry of
    [script], and rejects the requests after them. *)
Definition scripted (script : list (exn AIFixResult))
  : nat -> string -> CodeIssue -> exn AIFixResult :=
  fun n _ _ => nth n script (Throw (ServiceError "no reply")).

(** A service that patches the text it is given by adding the message of
    the issue, with the confidence [90 - 10 * n] at the [n]-th request. *)
Definition appending : nat -> string -> CodeIssue -> exn AIFixResult :=
  fun n text issue =>
    Ok {| originalCode := text;
          fixedCode := text +:+ "+" +:+ message issue;
          explanation := "changed";
          confidence := 90 - 10 * Z.of_nat n |}.

End fix_vocabulary.

Section analyzer_vocabulary.

Import RegExp AIDevOpsAgent CodeAnalyzer.

(** The issue [i] is one that [rule] reports for the line [l], the
    [n]-th of the file (from 0). *)
Definition reportedBy (rule : AnalyzerRule) (filePath : string) (l : string) (n : nat)
    (i : CodeIssue) : Prop :=
  file i = filePath /\ line i = (Z.of_nat n + 1)%Z /\ code i = Some (trim l)
  /\ column i = None /\ is_Some (suggestedFix i)
  /\ category i = ruleCategory rule /\ severity i = ruleSeverity rule.

(** What the fix of [issue] leaves of the line [l]: nothing, the line with
    its first [var] replaced, or the line. *)
Definition fixOf (issue : CodeIssue) (l : string) : list string :=
  if String.eqb (category issue) "Code Quality" && test false DevOpsAgent.consoleLog l
  then []
  else if String.eqb (category issue) "Best Practices" && test false varDeclaration l
  then [replace varKeyword "const" l]
  else if String.eqb (category issue) "Code Quality" && test false debuggerStatement l
  then []
  else [l].

(** What the fixes of [issues] leave of the line [l], the [n]-th of the
    file, when each is applied to the line it names. *)
Definition fixedAt (issues : list CodeIssue) (n : nat) (l : string) : list string :=
  match find (fun i => (line i =? Z.of_nat n + 1)%Z) issues with
  | Some i => fixOf i l
  | None => [l]
  end.

(** The issues of a text that [applyFixes] hands to [applyFixesToFile]. *)
Definition fixableIssues (content file_ : string) : list CodeIssue :=
  filter (fun i => autoFixable i = true) (analyzeFile content file_).

(** What [applyFixes] does with a file: it leaves it, writes a new text
    that fixes [n] issues, or fails. *)
Inductive Outcome : Type :=
| untouched
| rewritten (text : string) (n : nat)
| unfixed.

Definition outcomeOf (fs : FileSystem) (file_ : string) : Outcome :=
  match files fs !! file_ with
  | None => unfixed
  | Some content =>
      let fixable := fixableIssues content file_ in
      if 0 <? length fixable then
        if decide (file_ ∈ readOnly fs) then unfixed
        else rewritten (DevOpsAgent.applyFixesToFile content fixable) (length fixable)
      else untouched
  end.

Definition fixedBy (o : Outcome) : nat :=
  match o with
  | rewritten _ n => n
  | _ => 0
  end.

Definition failedBy (o : Outcome) : nat :=
  match o with
  | unfixed => 1
  | _ => 0
  end.

(** A disk that holds the files [entries], of which [locked] reject a
    write. *)
Definition diskOf (entries : list (string * string)) (locked : list string)
  : FileSystem :=
  {| files := list_to_map entries; readOnly := list_to_set locked |}.

(** [path.join] on a directory and a pattern without dots, and a search in
    which the patterns for the [.ts] files and for all files overlap. *)
Definition joinPath (a b : string) : string := a +:+ "/" +:+ b.

Definition overlapping (pattern : string) (ignore : list string) : exn (list string) :=
  if String.eqb pattern "src/**/*.ts" then Ok ["/p/src/a.ts"; "/p/src/b.ts"]
  else Ok ["/p/src/a.ts"; "/p/src/c.js"].

(** A source text with a declaration to fix, a comment and a line to keep,
    and one in which a line holds two statements to remove. *)
Definition sampleSource : string :=
  join_lines ["var total = 0;"; "console.log(total);"; "// console.log(total)";
              "export default total;"].

Definition crowdedSource : string :=
  join_lines ["console.log(total); debugger;"; "// console.log(total)";
              "export default total;"].

(** A configuration whose two patterns overlap, and a disk for it: a.ts
    can be fixed, b.ts is missing, c.js rejects a write. *)
Definition sampleConfig : AgentConfig :=
  makeConfig "src" (Some ["**/*.ts"; "**/*"]) None.

Definition sampleDisk : FileSystem :=
  diskOf [("/p/src/a.ts", sampleSource); ("/p/src/c.js", "debugger;")] ["/p/src/c.js"].

End analyzer_vocabulary.

(** * Properties *)

(** ** Proof steps *)

Lemma bind_Ok {A B : Type} (m : exn A) (k : A -> exn B) (b : B) :
  bind m k = Ok b -> exists a, m = Ok a /\ k a = Ok b.
Proof. destruct m as [a|e]; simpl; [eauto | discriminate]. Qed.

(** A sequence [let* x := m in k] that ended well got a value from [m]. *)
Ltac bind_inv H :=
  let a := fresh "v" in
  let Ha := fresh "Hv" in
  apply bind_Ok in H as (a & Ha & H).

(** The cases of an integer equality test. *)
Ltac case_Zeqb :=
  match goal with
  | |- context [(?x =? ?y)%Z] => destruct (Z.eqb_spec x y)
  | H : context [(?x =? ?y)%Z] |- _ => destruct (Z.eqb_spec x y)
  end.

(** ** Exceptions and text *)

Lemma try_catch_default {A : Type} (body : exn A) (d : A) :
  try_catch body (fun _ => Ok d)
  = Ok (match body with Ok a => a | Throw _ => d end).
Proof. destruct body; reflexivity. Qed.

Lemma append_cons (c : ascii) (a b : string) : String c a +:+ b = String c (a +:+ b).
Proof. reflexivity. Qed.

Lemma append_empty_l (a : string) : "" +:+ a = a.
Proof. reflexivity. Qed.

Lemma append_assoc (a b c : string) : (a +:+ b) +:+ c = a +:+ (b +:+ c).
Proof.
  induction a as [|x a IH]; [reflexivity|].
  rewrite !append_cons, IH. reflexivity.
Qed.

Lemma append_empty_r (a : string) : a +:+ "" = a.
Proof.
  induction a as [|x a IH]; [reflexivity|].
  rewrite append_cons, IH. reflexivity.
Qed.

(** A span found by [up_to_last_close] ends with '}'. *)
Lemma up_to_last_close_ends (s p : string) :
  up_to_last_close s = Some p -> exists body, p = body +:+ "}".
Proof.
  revert p. induction s as [|c s IH]; intros p H; simpl in H; [discriminate|].
  destruct (up_to_last_close s) as [q|] eqn:E.
  - injection H as <-. destruct (IH q eq_refl) as [body ->].
    exists (String c body). reflexivity.
  - destruct (Ascii.eqb_spec c "}"); [|discriminate].
    injection H as <-. subst c. exists "". reflexivity.
Qed.

(** The span of a reply ends with '}'. *)
Lemma jsonMatch_ends (response span : string) :
  jsonMatch response = Some span -> exists body, span = body +:+ "}".
Proof.
  induction response as [|c r IH]; simpl; [discriminate|].
  destruct (c =? "{")%char; [|exact IH].
  destruct (up_to_last_close r) as [p|] eqn:E; simpl; [|discriminate].
  intros [= <-]. destruct (up_to_last_close_ends _ _ E) as [body ->].
  exists (String c body). reflexivity.
Qed.


Lemma space2_close_r (n : nat) : space2 n (nat_of_ascii "}") = false.
Proof. unfold space2. simpl. apply andb_false_r. Qed.

Lemma space3_close_r (n n2 : nat) : space3 n n2 (nat_of_ascii "}") = false.
Proof.
  unfold space3. simpl.
  rewrite !andb_false_r. reflexivity.
Qed.

(** White space up to the end never reaches over a '}'. *)
Lemma all_space_close (r : string) : all_space (r +:+ "}") = false.
Proof.
  remember (String.length r) as n eqn:Hn.
  revert r Hn. induction n as [n IH] using lt_wf_ind. intros r Hn.
  destruct r as [|c r1]; [reflexivity|].
  rewrite append_cons. cbn [all_space].
  destruct (space1 (nat_of_ascii c)).
  { apply (IH (String.length r1)); [subst n; simpl; lia | reflexivity]. }
  destruct r1 as [|c2 r2].
  { rewrite append_empty_l, space2_close_r. reflexivity. }
  rewrite append_cons.
  destruct (space2 (nat_of_ascii c) (nat_of_ascii c2)).
  { apply (IH (String.length r2)); [subst n; simpl; lia | reflexivity]. }
  destruct r2 as [|c3 r3].
  { rewrite append_empty_l, space3_close_r. reflexivity. }
  rewrite append_cons.
  destruct (space3 (nat_of_ascii c) (nat_of_ascii c2) (nat_of_ascii c3)); [|reflexivity].
  apply (IH (String.length r3)); [subst n; simpl; lia | reflexivity].
Qed.

(** Nothing is stripped from a text that ends with '}'. *)
Lemma strip_trailing_comma_close (body : string) :
  strip_trailing_comma (body +:+ "}") = body +:+ "}".
Proof.
  induction body as [|c body IH]; [reflexivity|].
  rewrite append_cons. cbn [strip_trailing_comma].
  rewrite all_space_close, andb_false_r, IH. reflexivity.
Qed.

(** ** [JSON.parse]: the fuel is enough *)

Lemma skip_ws_length (s : string) : String.length (skip_ws s) <= String.length s.
Proof.
  induction s as [|c r IH]; cbn [skip_ws]; [lia|].
  destruct (json_ws c); cbn [String.length] in *; lia.
Qed.

Lemma take_digits_length (acc : Z) (s : string) (v : Z) (k : nat) (rest : string) :
  take_digits acc s = (v, k, rest) -> String.length rest + k = String.length s.
Proof.
  revert acc v k rest. induction s as [|c r IH]; intros acc v k rest H; cbn in H.
  - injection H as <- <- <-. reflexivity.
  - destruct (digit_of c) as [d|].
    + destruct (take_digits (acc * 10 + d) r) as [[v' k'] rest'] eqn:E.
      injection H as <- <- <-. apply IH in E. cbn [String.length]. lia.
    + injection H as <- <- <-. cbn [String.length]. lia.
Qed.

Lemma parse_exponent_length (s rest : string) (e : Z) :
  parse_exponent s = Some (e, rest) -> String.length rest <= String.length s.
Proof.
  unfold parse_exponent. destruct s as [|c r]; [intros [= <- <-]; lia|].
  destruct ((c =? "e")%char || (c =? "E")%char); [|intros [= <- <-]; lia].
  destruct r as [|sg r'].
  - cbn. discriminate.
  - destruct (sg =? "-")%char; [|destruct (sg =? "+")%char].
    + destruct (take_digits 0 r') as [[v k] rest'] eqn:E.
      apply take_digits_length in E. destruct (k =? 0); [discriminate|].
      intros [= <- <-]. cbn [String.length]. lia.
    + destruct (take_digits 0 r') as [[v k] rest'] eqn:E.
      apply take_digits_length in E. destruct (k =? 0); [discriminate|].
      intros [= <- <-]. cbn [String.length]. lia.
    + destruct (take_digits 0 (String sg r')) as [[v k] rest'] eqn:E.
      apply take_digits_length in E. destruct (k =? 0); [discriminate|].
      intros [= <- <-]. cbn [String.length] in *. lia.
Qed.

Lemma parse_fraction_length (m : Z) (s rest : string) (m' : Z) (k : nat) :
  parse_fraction m s = Some (m', k, rest) -> String.length rest <= String.length s.
Proof.
  unfold parse_fraction. destruct s as [|c r]; [intros [= <- <- <-]; lia|].
  destruct (c =? ".")%char; [|intros [= <- <- <-]; lia].
  destruct (take_digits m r) as [[v k'] rest'] eqn:E.
  apply take_digits_length in E. destruct (k' =? 0); [discriminate|].
  intros [= <- <- <-]. cbn [String.length]. lia.
Qed.

Lemma parse_unsigned_length (neg : bool) (s rest : string) (n : number) :
  parse_unsigned neg s = Some (n, rest) -> String.length rest < String.length s.
Proof.
  unfold parse_unsigned. destruct s as [|c r]; [discriminate|].
  destruct (digit_of c) as [d|]; [|discriminate]. cbn [mbind option_bind].
  assert (exists m r1, (if (d =? 0)%Z then (0%Z, r)
            else let '(v, _, rest) := take_digits d r in (v, rest)) = (m, r1)
            /\ String.length r1 <= String.length r) as (m & r1 & -> & Hr1).
  { destruct (d =? 0)%Z; [eauto|].
    destruct (take_digits d r) as [[v k] rest'] eqn:E.
    apply take_digits_length in E. exists v, rest'. split; [reflexivity | lia]. }
  destruct (parse_fraction m r1) as [[[m' k] r2]|] eqn:Ef; [|discriminate].
  cbn [mbind option_bind].
  destruct (parse_exponent r2) as [[e r3]|] eqn:Ee; [|discriminate].
  cbn [mbind option_bind]. intros [= _ <-].
  apply parse_fraction_length in Ef. apply parse_exponent_length in Ee.
  cbn [String.length]. lia.
Qed.

Lemma parse_number_length (s rest : string) (n : number) :
  parse_number s = Some (n, rest) -> String.length rest < String.length s.
Proof.
  unfold parse_number. destruct s as [|c r]; [discriminate|].
  destruct (c =? "-")%char; intros H; apply parse_unsigned_length in H;
    cbn [String.length] in *; lia.
Qed.

Lemma parse_string_body_length (s rest : string) (ps : list piece) :
  parse_string_body s = Some (ps, rest) -> String.length rest < String.length s.
Proof.
  remember (String.length s) as n eqn:Hn.
  revert s ps rest Hn. induction n as [n IH] using lt_wf_ind.
  intros s ps rest Hn H. destruct s as [|c r]; [discriminate|].
  cbn [parse_string_body] in H. cbn [String.length] in Hn.
  destruct (c =? dquote)%char; [injection H as <- <-; cbn [String.length]; lia|].
  destruct (c =? "\")%char.
  - destruct r as [|e r1]; [discriminate|].
    destruct (simple_escape e).
    + destruct (parse_string_body r1) as [[ps' rest']|] eqn:E; [|discriminate].
      cbn in H. injection H as <- <-.
      apply (IH (String.length r1)) in E; cbn [String.length] in *; lia.
    + destruct (e =? "u")%char; [|discriminate].
      destruct r1 as [|h1 [|h2 [|h3 [|h4 r2]]]]; try discriminate.
      destruct (hex_of h1); [|discriminate]. destruct (hex_of h2); [|discriminate].
      destruct (hex_of h3); [|discriminate]. destruct (hex_of h4); [|discriminate].
      cbn [mbind option_bind] in H.
      destruct (parse_string_body r2) as [[ps' rest']|] eqn:E; [|discriminate].
      cbn in H. injection H as <- <-.
      apply (IH (String.length r2)) in E; cbn [String.length] in *; lia.
  - destruct (nat_of_ascii c <? 32); [discriminate|].
    destruct (parse_string_body r) as [[ps' rest']|] eqn:E; [|discriminate].
    cbn in H. injection H as <- <-.
    apply (IH (String.length r)) in E; cbn [String.length] in *; lia.
Qed.

Lemma parse_string_length (s rest str : string) :
  parse_string s = Some (str, rest) -> String.length rest < String.length s.
Proof.
  unfold parse_string.
  destruct (parse_string_body s) as [[ps rest']|] eqn:E; [|discriminate].
  cbn. intros [= _ <-]. eapply parse_string_body_length; eassumption.
Qed.

Lemma expect_length (w s rest : string) :
  expect w s = Some rest -> String.length rest <= String.length s.
Proof.
  revert s. induction w as [|c w IH]; intros s H; cbn [expect] in H.
  - injection H as <-. lia.
  - destruct s as [|d r]; [discriminate|].
    destruct (c =? d)%char; [|discriminate].
    apply IH in H. cbn [String.length]. lia.
Qed.

(** More fuel never changes what is parsed. *)
Lemma parse_fuel_mono (n : nat) :
  forall m, n <= m ->
    (forall s r, parse_value n s = Some r -> parse_value m s = Some r)
    /\ (forall s r, parse_elements n s = Some r -> parse_elements m s = Some r)
    /\ (forall s r, parse_members n s = Some r -> parse_members m s = Some r).
Proof.
  induction n as [|n IH]; intros m Hle.
  { repeat split; intros; discriminate. }
  destruct m as [|m]; [lia|].
  destruct (IH m ltac:(lia)) as (IHv & IHe & IHm).
  repeat split; intros s r H;
    cbn [parse_value parse_elements parse_members] in H |- *.
  - destruct (skip_ws s) as [|c r0]; [discriminate|].
    destruct (c =? "{")%char.
    { destruct (skip_ws r0) as [|c' r']; [discriminate|].
      destruct (c' =? "}")%char; [exact H|].
      destruct (parse_members n r0) as [p|] eqn:E; [|discriminate].
      apply IHm in E. rewrite E. exact H. }
    destruct (c =? "[")%char.
    { destruct (skip_ws r0) as [|c' r']; [discriminate|].
      destruct (c' =? "]")%char; [exact H|].
      destruct (parse_elements n r0) as [p|] eqn:E; [|discriminate].
      apply IHe in E. rewrite E. exact H. }
    exact H.
  - destruct (parse_value n s) as [[v r0]|] eqn:E; [|discriminate].
    apply IHv in E. rewrite E. cbn [mbind option_bind] in H |- *.
    destruct (skip_ws r0) as [|c r']; [discriminate|].
    destruct (c =? ",")%char; [|exact H].
    destruct (parse_elements n r') as [p|] eqn:E'; [|discriminate].
    apply IHe in E'. rewrite E'. exact H.
  - destruct (skip_ws s) as [|q r0]; [discriminate|].
    destruct (q =? dquote)%char; [|discriminate].
    destruct (parse_string r0) as [[k r1]|]; [|discriminate].
    cbn [mbind option_bind] in H |- *.
    destruct (skip_ws r1) as [|colon r2]; [discriminate|].
    destruct (colon =? ":")%char; [|discriminate].
    destruct (parse_value n r2) as [[v r3]|] eqn:E; [|discriminate].
    apply IHv in E. rewrite E. cbn [mbind option_bind] in H |- *.
    destruct (skip_ws r3) as [|c r']; [discriminate|].
    destruct (c =? ",")%char; [|exact H].
    destruct (parse_members n r') as [p|] eqn:E'; [|discriminate].
    apply IHm in E'. rewrite E'. exact H.
Qed.

(** What is parsed with some fuel is parsed with twice the number of
    characters read; and something is read. *)
Lemma parse_fuel_enough (n : nat) :
  (forall s v rest, parse_value n s = Some (v, rest) ->
     String.length rest < String.length s
     /\ parse_value (2 * (String.length s - String.length rest) - 1) s = Some (v, rest))
  /\ (forall s vs rest, parse_elements n s = Some (vs, rest) ->
        String.length rest < String.length s
        /\ parse_elements (2 * (String.length s - String.length rest)) s = Some (vs, rest))
  /\ (forall s ms rest, parse_members n s = Some (ms, rest) ->
        String.length rest < String.length s
        /\ parse_members (2 * (String.length s - String.length rest)) s = Some (ms, rest)).
Proof.
  induction n as [|n (IHv & IHe & IHm)].
  { repeat split; discriminate. }
  split; [|split].
  - intros s v rest H. pose proof (skip_ws_length s) as Hws.
    assert (String.length rest < String.length s ->
            exists k, 2 * (String.length s - String.length rest) - 1 = S k) as Hfuel
      by (intros; exists (2 * (String.length s - String.length rest) - 2); lia).
    cbn [parse_value] in H.
    destruct (skip_ws s) as [|c r0] eqn:Es; [discriminate|].
    cbn [String.length] in Hws.
    destruct (c =? "{")%char eqn:Ec1.
    { pose proof (skip_ws_length r0) as Hws0.
      destruct (skip_ws r0) as [|c' r'] eqn:Er0; [discriminate|].
      cbn [String.length] in Hws0.
      destruct (c' =? "}")%char eqn:Ec2.
      - injection H as <- <-. split; [lia|].
        destruct Hfuel as [k ->]; [lia|].
        cbn [parse_value]. rewrite Es, Ec1, Er0, Ec2. reflexivity.
      - destruct (parse_members n r0) as [[ms rest']|] eqn:E; [|discriminate].
        cbn in H. injection H as <- <-.
        apply IHm in E as [Hlt E]. split; [lia|].
        destruct Hfuel as [k Hk]; [lia|]. rewrite Hk.
        cbn [parse_value]. rewrite Es, Ec1, Er0, Ec2.
        apply (parse_fuel_mono _ k) in E; [|lia]. rewrite E. reflexivity. }
    destruct (c =? "[")%char eqn:Ec3.
    { pose proof (skip_ws_length r0) as Hws0.
      destruct (skip_ws r0) as [|c' r'] eqn:Er0; [discriminate|].
      cbn [String.length] in Hws0.
      destruct (c' =? "]")%char eqn:Ec2.
      - injection H as <- <-. split; [lia|].
        destruct Hfuel as [k ->]; [lia|].
        cbn [parse_value]. rewrite Es, Ec1, Ec3, Er0, Ec2. reflexivity.
      - destruct (parse_elements n r0) as [[vs rest']|] eqn:E; [|discriminate].
        cbn in H. injection H as <- <-.
        apply IHe in E as [Hlt E]. split; [lia|].
        destruct Hfuel as [k Hk]; [lia|]. rewrite Hk.
        cbn [parse_value]. rewrite Es, Ec1, Ec3, Er0, Ec2.
        apply (parse_fuel_mono _ k) in E; [|lia]. rewrite E. reflexivity. }
    assert (String.length rest < String.length s) as Hlt.
    { destruct (c =? dquote)%char.
      { destruct (parse_string r0) as [[str rest']|] eqn:E; [|discriminate].
        cbn in H. injection H as <- <-. apply parse_string_length in E. lia. }
      destruct (c =? "t")%char.
      { destruct (expect "rue" r0) as [rest'|] eqn:E; [|discriminate].
        cbn in H. injection H as <- <-. apply expect_length in E. lia. }
      destruct (c =? "f")%char.
      { destruct (expect "alse" r0) as [rest'|] eqn:E; [|discriminate].
        cbn in H. injection H as <- <-. apply expect_length in E. lia. }
      destruct (c =? "n")%char.
      { destruct (expect "ull" r0) as [rest'|] eqn:E; [|discriminate].
        cbn in H. injection H as <- <-. apply expect_length in E. lia. }
      destruct (parse_number (String c r0)) as [[num rest']|] eqn:E; [|discriminate].
      cbn in H. injection H as <- <-. apply parse_number_length in E.
      cbn [String.length] in E. lia. }
    split; [exact Hlt|]. destruct Hfuel as [k ->]; [exact Hlt|].
    cbn [parse_value]. rewrite Es, Ec1, Ec3. exact H.
  - intros s vs rest H. cbn [parse_elements] in H.
    destruct (parse_value n s) as [[v r0]|] eqn:E; [|discriminate].
    cbn [mbind option_bind] in H.
    apply IHv in E as [Hlt E].
    pose proof (skip_ws_length r0) as Hws.
    destruct (skip_ws r0) as [|c r'] eqn:Er0; [discriminate|].
    cbn [String.length] in Hws.
    destruct (c =? ",")%char eqn:Ec1.
    + destruct (parse_elements n r') as [[vs' rest']|] eqn:E'; [|discriminate].
      cbn in H. injection H as <- <-.
      apply IHe in E' as [Hlt' E']. split; [lia|].
      assert (exists k, 2 * (String.length s - String.length rest') = S k) as [k Hk]
        by (exists (2 * (String.length s - String.length rest') - 1); lia).
      rewrite Hk. cbn [parse_elements].
      apply (parse_fuel_mono _ k) in E; [|lia]. rewrite E.
      cbn [mbind option_bind]. rewrite Er0, Ec1.
      apply (parse_fuel_mono _ k) in E'; [|lia]. rewrite E'. reflexivity.
    + destruct (c =? "]")%char eqn:Ec2; [|discriminate].
      injection H as <- <-. split; [lia|].
      assert (exists k, 2 * (String.length s - String.length r') = S k) as [k Hk]
        by (exists (2 * (String.length s - String.length r') - 1); lia).
      rewrite Hk. cbn [parse_elements].
      apply (parse_fuel_mono _ k) in E; [|lia]. rewrite E.
      cbn [mbind option_bind]. rewrite Er0, Ec1, Ec2. reflexivity.
  - intros s ms rest H. cbn [parse_members] in H.
    pose proof (skip_ws_length s) as Hws0.
    destruct (skip_ws s) as [|q r0] eqn:Es; [discriminate|].
    cbn [String.length] in Hws0.
    destruct (q =? dquote)%char eqn:Eq; [|discriminate].
    destruct (parse_string r0) as [[key r1]|] eqn:Ek; [|discriminate].
    cbn [mbind option_bind] in H.
    pose proof (parse_string_length _ _ _ Ek) as Hk1.
    pose proof (skip_ws_length r1) as Hws1.
    destruct (skip_ws r1) as [|colon r2] eqn:Er1; [discriminate|].
    cbn [String.length] in Hws1.
    destruct (colon =? ":")%char eqn:Ecol; [|discriminate].
    destruct (parse_value n r2) as [[v r3]|] eqn:E; [|discriminate].
    cbn [mbind option_bind] in H.
    apply IHv in E as [Hlt E].
    pose proof (skip_ws_length r3) as Hws.
    destruct (skip_ws r3) as [|c r'] eqn:Er3; [discriminate|].
    cbn [String.length] in Hws.
    destruct (c =? ",")%char eqn:Ec1.
    + destruct (parse_members n r') as [[ms' rest']|] eqn:E'; [|discriminate].
      cbn in H. injection H as <- <-.
      apply IHm in E' as [Hlt' E']. split; [lia|].
      assert (exists k, 2 * (String.length s - String.length rest') = S k) as [k Hk]
        by (exists (2 * (String.length s - String.length rest') - 1); lia).
      rewrite Hk. cbn [parse_members]. rewrite Es, Eq, Ek.
      cbn [mbind option_bind]. rewrite Er1, Ecol.
      apply (parse_fuel_mono _ k) in E; [|lia]. rewrite E.
      cbn [mbind option_bind]. rewrite Er3, Ec1.
      apply (parse_fuel_mono _ k) in E'; [|lia]. rewrite E'. reflexivity.
    + destruct (c =? "}")%char eqn:Ec2; [|discriminate].
      injection H as <- <-. split; [lia|].
      assert (exists k, 2 * (String.length s - String.length r') = S k) as [k Hk]
        by (exists (2 * (String.length s - String.length r') - 1); lia).
      rewrite Hk. cbn [parse_members]. rewrite Es, Eq, Ek.
      cbn [mbind option_bind]. rewrite Er1, Ecol.
      apply (parse_fuel_mono _ k) in E; [|lia]. rewrite E.
      cbn [mbind option_bind]. rewrite Er3, Ec1, Ec2. reflexivity.
Qed.

(** The fuel of [JSON_parse] is enough: a text that is a JSON value with
    any fuel at all is parsed by [JSON_parse]. *)
Lemma JSON_parse_fuel (n : nat) (text : string) (v : value) (rest : string) :
  parse_value n text = Some (v, rest) ->
  skip_ws rest = "" ->
  JSON_parse text = Some v.
Proof.
  intros H Hrest. unfold JSON_parse.
  apply parse_fuel_enough in H as [Hlt H].
  apply (parse_fuel_mono _ (2 * String.length text)) in H; [|lia].
  rewrite H. cbn [mbind option_bind]. rewrite Hrest. reflexivity.
Qed.


(** ** The chunk loop *)

Section analyzer_facts.

Import AIAnalyzer.

(** The loop, unfolded once. *)
Lemma analyzeLoop_unfold client content filePath context st sent :
  analyzeLoop client content filePath context st sent
  = if continues st
    then
      let sent' := sent ++ [buildAnalysisPrompt content filePath context (currentChunk st)] in
      match analyzeChunk client content filePath context st with
      | Ok st' => analyzeLoop client content filePath context st' sent'
      | Throw e => (Throw e, sent')
      end
    else (Ok st, sent).
Proof.
  funelim (analyzeLoop client content filePath context st sent); cbv zeta;
    repeat match goal with
    | H : continues ?s = _ |- context [continues ?s] => rewrite H
    | H : analyzeChunk ?a ?b ?c ?d ?s = _
      |- context [analyzeChunk ?a ?b ?c ?d ?s] => rewrite H
    end; reflexivity.
Qed.

(** One chunk succeeds exactly when the service answers with a message that
    has a first block; the parser itself never stops the loop. *)
Lemma analyzeChunk_currentChunk client content filePath context st st' :
  analyzeChunk client content filePath context st = Ok st' ->
  currentChunk st' = S (currentChunk st).
Proof.
  unfold analyzeChunk.
  destruct (client _); [|discriminate]. simpl.
  destruct (responseText _); [|discriminate]. simpl.
  destruct (parseAnalysisResponse _ _); [|discriminate]. simpl.
  intros [= <-]. reflexivity.
Qed.

(** Induction over the iterations of the loop, for a property [P] of the
    loop's state, the prompts sent, and its outcome. *)
Lemma analyzeLoop_induction client content filePath context
    (P : AnalysisState -> list AnalysisPrompt ->
         exn AnalysisState * list AnalysisPrompt -> Prop) :
  (forall st sent, continues st = false -> P st sent (Ok st, sent)) ->
  (forall st sent e,
      continues st = true ->
      analyzeChunk client content filePath context st = Throw e ->
      P st sent
        (Throw e, sent ++ [buildAnalysisPrompt content filePath context (currentChunk st)])) ->
  (forall st sent st' out,
      continues st = true ->
      analyzeChunk client content filePath context st = Ok st' ->
      P st' (sent ++ [buildAnalysisPrompt content filePath context (currentChunk st)]) out ->
      P st sent out) ->
  forall st sent, P st sent (analyzeLoop client content filePath context st sent).
Proof.
  intros Hstop Hthrow Hstep st.
  remember (10 - currentChunk st) as n eqn:Hn.
  revert st Hn. induction n as [n IH] using lt_wf_ind. intros st Hn sent.
  rewrite analyzeLoop_unfold.
  destruct (continues st) eqn:Hc; [|apply Hstop; exact Hc].
  cbv zeta.
  destruct (analyzeChunk client content filePath context st) as [st'|e] eqn:Hs;
    [|apply Hthrow; assumption].
  apply (Hstep st sent st'); [exact Hc | exact Hs |].
  apply (IH (10 - currentChunk st')); [|reflexivity].
  apply analyzeChunk_currentChunk in Hs.
  unfold continues in Hc. apply andb_prop in Hc as [_ Hlt].
  apply Nat.ltb_lt in Hlt. lia.
Qed.

End analyzer_facts.

(** ** The reply parsers *)

Section parser_facts.

Import AIAnalyzer.

Lemma map_exn_Forall2 {A : Type} (f : value -> exn A) (items : list value) (out : list A) :
  map_exn f items = Ok out -> Forall2 (fun x y => f x = Ok y) items out.
Proof.
  revert out. induction items as [|x r IH]; intros out H; simpl in H.
  - injection H as <-. constructor.
  - bind_inv H. bind_inv H. injection H as <-.
    constructor; [assumption | apply IH; assumption].
Qed.

(** The kind that [toCodeIssue] derives is the one of [kindOf]. *)
Lemma kind_of_severity (sev : value) :
  (if is_string sev "critical" || is_string sev "high" then error else warning)
  = kindOf sev.
Proof.
  destruct sev; try reflexivity. simpl.
  destruct (decide (s = "critical" \/ s = "high")) as [[->| ->]|Hn]; try reflexivity.
  destruct (String.eqb_spec s "critical"); [tauto|].
  destruct (String.eqb_spec s "high"); [tauto|]. reflexivity.
Qed.

(** What [toCodeIssue] makes of an entry of the reply. *)
Lemma toCodeIssue_Ok (filePath : string) (entry : value) (c : CodeIssue) :
  toCodeIssue filePath entry = Ok c ->
  exists sev ln,
    prop entry "severity" = Ok sev /\ prop entry "line" = Ok ln
    /\ type c = kindOf sev /\ severity c = sev
    /\ line c = or_else ln (JNumber (Num 1 0)) /\ file c = filePath.
Proof.
  unfold toCodeIssue. intros H.
  apply bind_Ok in H as (sev & Hsev & H).
  apply bind_Ok in H as (cat & Hcat & H).
  apply bind_Ok in H as (msg & Hmsg & H).
  apply bind_Ok in H as (ln & Hln & H).
  apply bind_Ok in H as (sf & Hsf & H).
  apply bind_Ok in H as (af & Haf & H).
  injection H as <-. exists sev, ln. simpl.
  rewrite kind_of_severity. repeat split; assumption || reflexivity.
Qed.

(** Every issue of a normalised reply is filed under [filePath]. *)
Lemma toAnalysisResult_file (filePath : string) (parsed : value) (r : AIAnalysisResult) :
  toAnalysisResult filePath parsed = Ok r ->
  Forall (fun c => file c = filePath) (issues r).
Proof.
  unfold toAnalysisResult. intros H.
  apply bind_Ok in H as (raw & Hraw & H).
  apply bind_Ok in H as (cs & Hcs & H).
  do 4 bind_inv H. injection H as <-. simpl.
  unfold array_map in Hcs.
  destruct (or_else raw (JArray [])); try discriminate.
  apply map_exn_Forall2 in Hcs.
  induction Hcs as [|x c xs cs' Hx _ IH]; [constructor|].
  constructor; [|exact IH].
  apply toCodeIssue_Ok in Hx as (? & ? & ? & ? & ? & ? & ? & ?). assumption.
Qed.

(** The analysis parser returns the normalised reply or [failedAnalysis]. *)
Lemma parseAnalysisResponse_cases (response filePath : string) (r : AIAnalysisResult) :
  parseAnalysisResponse response filePath = Ok r ->
  r = failedAnalysis
  \/ exists parsed, toAnalysisResult filePath parsed = Ok r.
Proof.
  unfold parseAnalysisResponse. rewrite try_catch_default. intros [= <-].
  destruct (jsonMatch response) as [span|]; simpl; [|left; reflexivity].
  match goal with |- context [or_throw ?o SyntaxError] => destruct o as [parsed|] end;
    simpl; [|left; reflexivity].
  destruct (toAnalysisResult filePath parsed) eqn:E; [right; eauto | left; reflexivity].
Qed.

Lemma parseAnalysisResponse_total (response filePath : string) :
  exists r, parseAnalysisResponse response filePath = Ok r.
Proof. unfold parseAnalysisResponse. rewrite try_catch_default. eauto. Qed.

Lemma parseAnalysisResponse_file (response filePath : string) (r : AIAnalysisResult) :
  parseAnalysisResponse response filePath = Ok r ->
  Forall (fun c => file c = filePath) (issues r).
Proof.
  intros H. apply parseAnalysisResponse_cases in H as [-> | [parsed H]].
  - constructor.
  - eapply toAnalysisResult_file; eassumption.
Qed.

(** C6. Neither parser raises, whatever the reply: each returns a value.
    When the reply holds no '{' ... '}' span, or its span is no JSON text even
    after the repair, the analysis parser returns a result with no issue;
    when the reply holds no span or its span is no JSON text, the fix parser
    returns the original code as the patched text, with confidence 0. *)
Theorem parsers_never_raise (response filePath originalCode : string) :
  (exists r,
      parseAnalysisResponse response filePath = Ok r
      /\ (noStructure response \/ unrecoverable response -> issues r = []))
  /\ (exists p,
         parseFixResponse response originalCode = Ok p
         /\ (noStructure response \/ unparseable response ->
             fixedCode p = JString originalCode
             /\ confidence p = JNumber (Num 0 0))).
Proof.
  split.
  - unfold parseAnalysisResponse. rewrite try_catch_default.
    eexists; split; [reflexivity|].
    intros [Hno | (span & Hm & Hp & Hr)].
    + unfold noStructure in Hno. rewrite Hno. reflexivity.
    + rewrite Hm. simpl. rewrite Hp, Hr. reflexivity.
  - unfold parseFixResponse. rewrite try_catch_default.
    eexists; split; [reflexivity|].
    intros [Hno | (span & Hm & Hp)].
    + unfold noStructure in Hno. rewrite Hno. split; reflexivity.
    + rewrite Hm. simpl. rewrite Hp. split; reflexivity.
Qed.

Lemma parsers_never_raise_witness :
  (exists r,
      parseAnalysisResponse "no structure here" "a.ts" = Ok r /\ issues r = [])
  /\ (exists p,
         parseFixResponse "{{{ not json }" "let x = 1;" = Ok p
         /\ fixedCode p = JString "let x = 1;"
         /\ confidence p = JNumber (Num 0 0)).
Proof.
  destruct (parsers_never_raise "no structure here" "a.ts" "") as [(r & Hr & Hi) _].
  destruct (parsers_never_raise "{{{ not json }" "" "let x = 1;") as [_ (p & Hp & Hf)].
  split.
  - exists r. split; [exact Hr|]. apply Hi. left. reflexivity.
  - exists p. split; [exact Hp|]. apply Hf. right.
    exists "{{{ not json }". split; reflexivity.
Defined.

End parser_facts.

Section repair_facts.

Import AIAnalyzer.

Lemma repeat_string_0 (s : string) : repeat_string s 0 = "".
Proof. reflexivity. Qed.

(** On a span whose missing closers are [k] times ']' and [m] times '}',
    the repair appends exactly these, the ']' first. *)
Lemma closeIncomplete_completed (span : string) (k m : nat) :
  (exists body, span = body +:+ "}") ->
  count_char "[" span = count_char "]" span + k ->
  count_char "{" span = count_char "}" span + m ->
  closeIncomplete span = completed span k m.
Proof.
  intros [body Hb] Hk Hm. unfold closeIncomplete, completed.
  rewrite Hk, Hm.
  replace (count_char "]" span + k - count_char "]" span) with k by lia.
  replace (count_char "}" span + m - count_char "}" span) with m by lia.
  destruct (Nat.ltb_spec (count_char "]" span) (count_char "]" span + k)) as [Hlt|Hge];
    destruct (Nat.ltb_spec (count_char "}" span) (count_char "}" span + m)) as [Hlt'|Hge'].
  - rewrite Hb, strip_trailing_comma_close, append_assoc. reflexivity.
  - assert (m = 0) as -> by lia.
    rewrite repeat_string_0, append_empty_r.
    rewrite Hb, strip_trailing_comma_close. reflexivity.
  - assert (k = 0) as -> by lia. reflexivity.
  - assert (k = 0) as -> by lia. assert (m = 0) as -> by lia.
    rewrite !repeat_string_0, !append_empty_r. reflexivity.
Qed.

(** C3, as the code has it. The repair belongs to the analysis parser alone.
    When the span of a reply fails the strict parse and the span followed by
    its missing ']' and then its missing '}' is a JSON text, the repair
    succeeds and the analysis parser returns what the normalisation makes of
    the strict parse of that completed text. The fix parser makes no repair:
    on a span that fails the strict parse it returns its failure value. *)
Theorem repair_closes_trailing_deficit
    (response filePath originalCode span : string) (k m : nat) (parsed : value) :
  jsonMatch response = Some span ->
  JSON_parse span = None ->
  count_char "[" span = count_char "]" span + k ->
  count_char "{" span = count_char "}" span + m ->
  JSON_parse (completed span k m) = Some parsed ->
  JSON_parse (closeIncomplete span) = Some parsed
  /\ parseAnalysisResponse response filePath
     = try_catch (toAnalysisResult filePath parsed) (fun _ => Ok failedAnalysis)
  /\ parseFixResponse response originalCode = Ok (failedFix originalCode).
Proof.
  intros Hm Hp Hk Hb Hc.
  assert (closeIncomplete span = completed span k m) as Hrep
    by (apply closeIncomplete_completed; eauto using jsonMatch_ends).
  split; [rewrite Hrep; exact Hc|]. split.
  - unfold parseAnalysisResponse. rewrite Hm. simpl.
    rewrite Hp, Hrep, Hc. reflexivity.
  - unfold parseFixResponse. rewrite Hm. simpl. rewrite Hp. reflexivity.
Qed.

(** A reply cut after the first issue: the repair closes the array and the
    object, and the issue is recovered. *)
Lemma repair_closes_trailing_deficit_witness :
  exists parsed,
    JSON_parse (json "{'issues':[{'line':7,'severity':'high'}]}") = Some parsed
    /\ parseAnalysisResponse
         (json "Result: {'issues':[{'line':7,'severity':'high'},{'line':9,'sev") "a.ts"
       = try_catch (toAnalysisResult "a.ts" parsed) (fun _ => Ok failedAnalysis)
    /\ (exists r, toAnalysisResult "a.ts" parsed = Ok r /\ length (issues r) = 1).
Proof.
  eexists. split; [vm_compute; reflexivity|]. split.
  - refine (proj1 (proj2 (repair_closes_trailing_deficit
      (json "Result: {'issues':[{'line':7,'severity':'high'},{'line':9,'sev")
      "a.ts" "" (json "{'issues':[{'line':7,'severity':'high'}") 1 1 _ _ _ _ _ _))).
    all: vm_compute; reflexivity.
  - eexists. split; vm_compute; reflexivity.
Defined.

(** C3 fails as stated. A reply cut inside an entry of the array lacks only
    closing tokens ('}', ']', '}' complete it to a JSON text with one issue),
    but the repair appends ']' before '}' and the result is no JSON text: the
    analysis parser returns its failure value, with no issue. And the fix
    parser has no repair at all: a fix reply that lacks its last '}' gives
    the failure value, not the proposal of the completed text. *)
Lemma repair_misses_inner_closer :
  let cut := json "{'issues':[{'line':3,'severity':'high','extra':{}" in
  let reply := json "{'fixedCode':'patched','confidence':90,'meta':{}" in
  (jsonMatch cut = Some cut
   /\ JSON_parse cut = None
   /\ (exists parsed r,
          JSON_parse (cut +:+ "}]}") = Some parsed
          /\ toAnalysisResult "a.ts" parsed = Ok r
          /\ length (issues r) = 1)
   /\ closeIncomplete cut = cut +:+ "]}}"
   /\ JSON_parse (closeIncomplete cut) = None
   /\ parseAnalysisResponse cut "a.ts" = Ok failedAnalysis)
  /\ (jsonMatch reply = Some reply
      /\ JSON_parse reply = None
      /\ (exists parsed,
             JSON_parse (reply +:+ "}") = Some parsed
             /\ prop parsed "fixedCode" = Ok (JString "patched")
             /\ prop parsed "confidence" = Ok (JNumber (Num 90 0)))
      /\ parseFixResponse reply "original" = Ok (failedFix "original")).
Proof.
  cbv zeta. repeat split; try (vm_compute; reflexivity).
  - do 2 eexists. repeat split; vm_compute; reflexivity.
  - eexists. repeat split; vm_compute; reflexivity.
Qed.

End repair_facts.

Section normalization_facts.

Import AIAnalyzer.

(** C9. When the span of a reply is a JSON text, the analysis parser returns
    the normalisation of its parse: entry by entry, the kind of an issue is
    [error] exactly when the entry's severity is critical or high and
    [warning] otherwise, its line is 1 when the entry has none, and the flag
    [hasMore] is [false] when the reply has none. The fix parser returns a
    proposal whose confidence is 0 when the reply has none and whose patched
    text is the original code when the reply has none. *)
Theorem normalization_of_parsed_reply
    (response filePath originalCode span : string) (parsed : value) :
  jsonMatch response = Some span ->
  JSON_parse span = Some parsed ->
  (forall r, toAnalysisResult filePath parsed = Ok r ->
     parseAnalysisResponse response filePath = Ok r
     /\ (exists entries,
            entriesOf parsed entries
            /\ Forall2
                 (fun entry c =>
                    (exists sev, prop entry "severity" = Ok sev
                                 /\ type c = kindOf sev)
                    /\ (type c = error <->
                        severity c = JString "critical" \/ severity c = JString "high")
                    /\ (type c = error \/ type c = warning)
                    /\ (absent entry "line" -> line c = JNumber (Num 1 0)))
                 entries (issues r))
     /\ (absent parsed "hasMore" -> hasMore r = JBool false))
  /\ (exists p,
         parseFixResponse response originalCode = Ok p
         /\ (absent parsed "confidence" -> confidence p = JNumber (Num 0 0))
         /\ (absent parsed "fixedCode" -> fixedCode p = JString originalCode)).
Proof.
  intros Hm Hp. split.
  - intros r Hr. split; [|split].
    + unfold parseAnalysisResponse. rewrite Hm. cbn [or_throw bind].
      rewrite Hp. cbn [or_throw bind]. rewrite Hp. cbn [or_throw bind].
      rewrite Hr. reflexivity.
    + unfold toAnalysisResult in Hr.
      apply bind_Ok in Hr as (raw & Hraw & Hr).
      apply bind_Ok in Hr as (cs & Hcs & Hr).
      do 4 bind_inv Hr. injection Hr as <-. simpl.
      unfold array_map in Hcs.
      destruct (or_else raw (JArray [])) as [| | | | |entries|] eqn:Hor; try discriminate.
      exists entries. split; [exists raw; auto|].
      apply map_exn_Forall2 in Hcs.
      eapply Forall2_impl; [exact Hcs|]. intros x c Hx. cbv beta in Hx.
      apply toCodeIssue_Ok in Hx as (sev & ln & Hsev & Hln & Hty & Hs & Hl & _).
      split; [eauto|]. split; [|split].
      * rewrite Hty, Hs. unfold kindOf. destruct sev; try (split; [discriminate | intros [[=]|[=]]]).
        destruct (decide (s = "critical" \/ s = "high")) as [Hd|Hd].
        -- split; [intros _|reflexivity]. destruct Hd as [-> | ->]; auto.
        -- split; [discriminate|]. intros [[= ->]|[= ->]]; exfalso; apply Hd; auto.
      * rewrite Hty. unfold kindOf. destruct sev; auto.
        destruct (decide _); auto.
      * intros Ha. unfold absent in Ha. rewrite Ha in Hln. injection Hln as <-.
        exact Hl.
    + intros Ha. unfold absent in Ha. unfold toAnalysisResult in Hr.
      apply bind_Ok in Hr as (raw & Hraw & Hr).
      apply bind_Ok in Hr as (cs & Hcs & Hr).
      apply bind_Ok in Hr as (su & Hsu & Hr).
      apply bind_Ok in Hr as (sg & Hsg & Hr).
      apply bind_Ok in Hr as (ar & Har & Hr).
      apply bind_Ok in Hr as (hm & Hhm & Hr).
      injection Hr as <-. simpl. rewrite Ha in Hhm. injection Hhm as <-. reflexivity.
  - unfold parseFixResponse. rewrite try_catch_default, Hm. simpl. rewrite Hp. simpl.
    eexists. split; [reflexivity|].
    unfold absent.
    destruct (prop parsed "fixedCode") as [fc|] eqn:Hfc; simpl;
      [|split; reflexivity].
    destruct (prop parsed "explanation") as [ex|] eqn:Hex; simpl;
      [|split; reflexivity].
    destruct (prop parsed "confidence") as [co|] eqn:Hco; simpl;
      [|split; reflexivity].
    split; intros [= ->]; reflexivity.
Qed.

Lemma normalization_of_parsed_reply_witness :
  let reply :=
    json "{'issues':[{'severity':'critical','message':'m'},{'severity':'low','line':4}]}" in
  (exists r,
      parseAnalysisResponse reply "a.ts" = Ok r
      /\ map type (issues r) = [error; warning]
      /\ map line (issues r) = [JNumber (Num 1 0); JNumber (Num 4 0)]
      /\ hasMore r = JBool false)
  /\ (exists p,
         parseFixResponse reply "original" = Ok p
         /\ confidence p = JNumber (Num 0 0)
         /\ fixedCode p = JString "original").
Proof.
  cbv zeta.
  destruct (normalization_of_parsed_reply
    (json "{'issues':[{'severity':'critical','message':'m'},{'severity':'low','line':4}]}")
    "a.ts" "original"
    (json "{'issues':[{'severity':'critical','message':'m'},{'severity':'low','line':4}]}")
    (JObject
       [("issues",
         JArray
           [JObject [("severity", JString "critical"); ("message", JString "m")];
            JObject [("severity", JString "low"); ("line", JNumber (Num 4 0))]])])
    ltac:(vm_compute; reflexivity) ltac:(vm_compute; reflexivity))
    as [Ha (p & Hp & Hc & Hf)].
  split.
  - edestruct Ha as (Hparse & _ & _); [vm_compute; reflexivity|].
    eexists. split; [exact Hparse|]. vm_compute. repeat split; reflexivity.
  - exists p. split; [exact Hp|]. split; [apply Hc | apply Hf]; reflexivity.
Defined.

End normalization_facts.

(** ** [analyzeCode] *)

Section analyzeCode_facts.

Import AIAnalyzer.

Lemma analyzeChunk_Ok client content filePath context st st' :
  analyzeChunk client content filePath context st = Ok st' ->
  exists result,
    chunkResult client content filePath context (currentChunk st) = Ok result
    /\ st' = accumulate st result.
Proof.
  unfold analyzeChunk, chunkResult.
  destruct (client _); [|discriminate]. cbn [bind].
  destruct (responseText _); [|discriminate]. cbn [bind].
  destruct (parseAnalysisResponse _ _) as [result|]; [|discriminate]. cbn [bind].
  intros [= <-]. eauto.
Qed.

(** A chunk fails only when its request is not answered. *)
Lemma analyzeChunk_answered client content filePath context st :
  answered client (buildAnalysisPrompt content filePath context (currentChunk st)) ->
  exists st', analyzeChunk client content filePath context st = Ok st'.
Proof.
  intros (message & Hm & Hne). unfold analyzeChunk. rewrite Hm.
  cbn [bind]. unfold responseText.
  destruct (AIAnalyzer.content message) as [|[text|] blocks]; [congruence| |]; cbn [bind].
  - destruct (parseAnalysisResponse_total text filePath) as [r ->]. cbn [bind]. eauto.
  - destruct (parseAnalysisResponse_total "" filePath) as [r ->]. cbn [bind]. eauto.
Qed.

(** C10. Every issue that [analyzeCode] returns for a file carries the
    [filePath] of the call in its [file] field, whatever the service wrote
    in its replies. *)
Theorem analyzeCode_issues_file client content filePath context r sent :
  analyzeCode client content filePath context = (Ok r, sent) ->
  Forall (fun c => file c = filePath) (issues r).
Proof.
  unfold analyzeCode.
  pose proof (analyzeLoop_induction client content filePath context
    (fun st _ out =>
       Forall (fun c => file c = filePath) (allIssues st) ->
       forall st', fst out = Ok st' ->
       Forall (fun c => file c = filePath) (allIssues st'))) as Hind.
  specialize (Hind
    ltac:(intros st s _ HF st' [= <-]; exact HF)
    ltac:(intros st s e _ _ _ st' [=])).
  assert (forall st s, Forall (fun c => file c = filePath) (allIssues st) ->
            forall st', fst (analyzeLoop client content filePath context st s) = Ok st' ->
            Forall (fun c => file c = filePath) (allIssues st')) as Hloop.
  { apply Hind. intros st s st1 out _ Hs IH HF st' Hout.
    apply (IH); [|exact Hout].
    apply analyzeChunk_Ok in Hs as (result & Hres & ->). simpl.
    apply Forall_app. split; [exact HF|].
    unfold chunkResult in Hres.
    apply bind_Ok in Hres as (message & _ & Hres).
    apply bind_Ok in Hres as (response & _ & Hres).
    eapply parseAnalysisResponse_file; eassumption. }
  destruct (analyzeLoop client content filePath context initialState []) as [out s] eqn:E.
  intros [= H <-]. destruct out as [st|]; [|discriminate].
  injection H as <-. simpl.
  apply (Hloop initialState []); [constructor | rewrite E; reflexivity].
Qed.

(** A reply that names another file in its entries: the issue is filed
    under the path of the call. *)
Lemma analyzeCode_issues_file_witness :
  let client := fun _ : AnalysisPrompt =>
    Ok {| AIAnalyzer.content :=
            [TextBlock (json "{'issues':[{'file':'other.ts','line':2,'message':'m'}]}")] |} in
  exists r sent,
    analyzeCode client "code" "src/a.ts" None = (Ok r, sent)
    /\ length (issues r) = 1
    /\ Forall (fun c => file c = "src/a.ts") (issues r).
Proof.
  cbv zeta. do 2 eexists.
  split; [vm_compute; reflexivity|]. split; [reflexivity|].
  eapply (analyzeCode_issues_file
    (fun _ : AnalysisPrompt =>
       Ok {| AIAnalyzer.content :=
               [TextBlock (json "{'issues':[{'file':'other.ts','line':2,'message':'m'}]}")] |})
    "code" "src/a.ts" None).
  vm_compute. reflexivity.
Defined.

Lemma seq_0_S (n : nat) : seq 0 (S n) = seq 0 n ++ [n].
Proof. rewrite seq_S. reflexivity. Qed.

(** C5. Whatever the service does, the chunk loop of [analyzeCode] ends
    after at most 10 requests, the prompts of the chunks 0, 1, ... in order.
    When every request sent was answered (by replies that report
    incompleteness for ever, or that are no JSON at all, or any others),
    [analyzeCode] returns a result and no error, also when the bound of 10
    ends the loop: the issues of the chunks received, in order, with
    [hasMore] false. (A request that is rejected ends the loop with its
    exception.) *)
Theorem chunk_loop_bounded client content filePath context :
  let run := analyzeCode client content filePath context in
  length (snd run) <= 10
  /\ snd run
     = map (buildAnalysisPrompt content filePath context) (seq 0 (length (snd run)))
  /\ ((forall prompt, prompt ∈ snd run -> answered client prompt) ->
      exists r,
        fst run = Ok r
        /\ issues r
           = flat_map (chunkIssues client content filePath context)
               (seq 0 (length (snd run)))
        /\ hasMore r = JBool false).
Proof.
  cbv zeta.
  set (prompt := buildAnalysisPrompt content filePath context).
  set (chunk := chunkIssues client content filePath context).
  assert (forall st sent,
    let out := analyzeLoop client content filePath context st sent in
    currentChunk st <= 10 ->
    sent = map prompt (seq 0 (currentChunk st)) ->
    length (snd out) <= 10
    /\ snd out = map prompt (seq 0 (length (snd out)))
    /\ ((forall p, p ∈ snd out -> answered client p) ->
        allIssues st = flat_map chunk (seq 0 (currentChunk st)) ->
        exists st', fst out = Ok st'
          /\ allIssues st' = flat_map chunk (seq 0 (length (snd out))))) as Hloop.
  { intros st sent. cbv zeta.
    apply (analyzeLoop_induction client content filePath context
      (fun st sent out =>
         currentChunk st <= 10 ->
         sent = map prompt (seq 0 (currentChunk st)) ->
         length (snd out) <= 10
         /\ snd out = map prompt (seq 0 (length (snd out)))
         /\ ((forall p, p ∈ snd out -> answered client p) ->
             allIssues st = flat_map chunk (seq 0 (currentChunk st)) ->
             exists st', fst out = Ok st'
               /\ allIssues st' = flat_map chunk (seq 0 (length (snd out)))))).
    - clear. intros st sent _ Hle ->. cbn [fst snd].
      rewrite length_map, length_seq. repeat split; [exact Hle|].
      intros _ Hall. eauto.
    - clear st sent. intros st sent e Hc Hs Hle ->. cbn [fst snd].
      unfold continues in Hc. apply andb_prop in Hc as [_ Hlt].
      apply Nat.ltb_lt in Hlt.
      rewrite length_app, length_map, length_seq. cbn [length].
      replace (currentChunk st + 1) with (S (currentChunk st)) by lia.
      rewrite seq_0_S, map_app. repeat split; [lia|].
      intros Ha _.
      destruct (analyzeChunk_answered client content filePath context st) as [st' Hst'];
        [|congruence].
      apply Ha. apply elem_of_app. right. apply list_elem_of_here.
    - clear st sent. intros st sent st' out Hc Hs IH Hle ->.
      unfold continues in Hc. apply andb_prop in Hc as [_ Hlt].
      apply Nat.ltb_lt in Hlt.
      pose proof (analyzeChunk_currentChunk _ _ _ _ _ _ Hs) as Hcur.
      destruct IH as (Hlen & Hsent & Hres).
      + lia.
      + rewrite Hcur, seq_0_S, map_app. reflexivity.
      + repeat split; [exact Hlen | exact Hsent |].
        intros Ha Hall. apply Hres; [exact Ha|].
        apply analyzeChunk_Ok in Hs as (result & Hr & ->).
        rewrite Hcur. cbn [allIssues accumulate].
        rewrite seq_0_S, flat_map_app, Hall. cbn [flat_map].
        rewrite app_nil_r. f_equal.
        unfold chunk, chunkIssues. rewrite Hr. reflexivity. }
  unfold analyzeCode.
  specialize (Hloop initialState [] (Nat.le_0_l _) eq_refl). cbv zeta in Hloop.
  destruct (analyzeLoop client content filePath context initialState []) as [out sent].
  cbn [fst snd] in *. destruct Hloop as (Hlen & Hsent & Hres).
  repeat split; [exact Hlen | exact Hsent |].
  intros Ha. destruct (Hres Ha eq_refl) as (st' & -> & Hall).
  cbn [bind]. eexists. split; [reflexivity|]. split; [exact Hall | reflexivity].
Qed.

(** A service that reports incompleteness for ever: the loop stops at the
    bound of 10 requests and returns the 10 issues it received. *)
Lemma chunk_loop_bounded_witness :
  let client := fun _ : AnalysisPrompt =>
    Ok {| AIAnalyzer.content :=
            [TextBlock (json "{'issues':[{'line':3,'message':'m'}],'hasMore':true}")] |} in
  let run := analyzeCode client "code" "a.ts" None in
  length (snd run) = 10
  /\ exists r, fst run = Ok r /\ length (issues r) = 10 /\ hasMore r = JBool false.
Proof.
  cbv zeta.
  destruct (chunk_loop_bounded
    (fun _ : AnalysisPrompt =>
       Ok {| AIAnalyzer.content :=
               [TextBlock (json "{'issues':[{'line':3,'message':'m'}],'hasMore':true}")] |})
    "code" "a.ts" None) as (_ & _ & Hres).
  destruct Hres as (r & Hr & Hi & Hh).
  { intros prompt _. eexists. split; [reflexivity | discriminate]. }
  split; [vm_compute; reflexivity|].
  exists r. split; [exact Hr|]. split; [|exact Hh].
  rewrite Hi. vm_compute. reflexivity.
Defined.

(** A service whose replies are no JSON: one request, an empty result. *)
Example chunk_loop_unparseable :
  let client := fun _ : AnalysisPrompt =>
    Ok {| AIAnalyzer.content := [TextBlock "I cannot help with that."] |} in
  let run := analyzeCode client "code" "a.ts" None in
  length (snd run) = 1
  /\ exists r, fst run = Ok r /\ issues r = [] /\ hasMore r = JBool false.
Proof. cbv zeta. split; [reflexivity|]. eexists. repeat split; reflexivity. Qed.

End analyzeCode_facts.

(** ** [Array.prototype.sort] *)

Section array_sort_facts.

Context {A : Type} (cmp : A -> A -> Z).

Lemma sort_insert_Permutation (x : A) (l : list A) :
  Permutation (sort_insert cmp x l) (x :: l).
Proof.
  induction l as [|y r IH]; simpl; [reflexivity|].
  destruct (cmp x y <=? 0)%Z; [reflexivity|].
  rewrite IH. apply perm_swap.
Qed.

(** The sort rearranges its argument. *)
Lemma array_sort_Permutation (l : list A) : Permutation (array_sort cmp l) l.
Proof.
  induction l as [|x r IH]; simpl; [reflexivity|].
  rewrite sort_insert_Permutation, IH. reflexivity.
Qed.



(** With a comparator that is total and transitive the result is ordered. *)
Hypothesis cmp_total : forall x y, (0 < cmp x y)%Z -> (cmp y x <= 0)%Z.
Hypothesis cmp_trans :
  forall x y z, (cmp x y <= 0)%Z -> (cmp y z <= 0)%Z -> (cmp x z <= 0)%Z.

Lemma sort_insert_sorted (x : A) (l : list A) :
  StronglySorted (fun a b => (cmp a b <= 0)%Z) l ->
  StronglySorted (fun a b => (cmp a b <= 0)%Z) (sort_insert cmp x l).
Proof.
  induction 1 as [|y r Hr IH Hy]; cbn [sort_insert].
  - repeat constructor.
  - destruct (Z.leb_spec (cmp x y) 0) as [Hle|Hgt].
    + constructor; [constructor; assumption|].
      constructor; [exact Hle|].
      eapply Forall_impl; [exact Hy|]. intros z Hz. cbv beta in *. eauto.
    + constructor; [exact IH|].
      rewrite sort_insert_Permutation. constructor; [auto|exact Hy].
Qed.

Lemma array_sort_sorted (l : list A) :
  StronglySorted (fun a b => (cmp a b <= 0)%Z) (array_sort cmp l).
Proof.
  induction l as [|x r IH]; cbn [array_sort]; [constructor|].
  apply sort_insert_sorted. exact IH.
Qed.

End array_sort_facts.

Lemma StronglySorted_weaken {A : Type} (R R' : A -> A -> Prop) (l : list A) :
  (forall a b, R a b -> R' a b) -> StronglySorted R l -> StronglySorted R' l.
Proof.
  intros Himp. induction 1 as [|x r Hr IH Hx]; constructor; [exact IH|].
  eapply Forall_impl; [exact Hx|]. intros y. apply Himp.
Qed.

(** An ordered array is left as it is (no assumption on the comparator). *)
Lemma array_sort_fixed {A : Type} (cmp : A -> A -> Z) (l : list A) :
  StronglySorted (fun a b => (cmp a b <= 0)%Z) l -> array_sort cmp l = l.
Proof.
  induction 1 as [|x r Hr IH Hx]; [reflexivity|].
  cbn [array_sort]. rewrite IH.
  destruct Hx as [|y r' Hxy _]; [reflexivity|].
  cbn [sort_insert]. destruct (Z.leb_spec (cmp x y) 0); [reflexivity | lia].
Qed.

(** ** [mergeIssues] *)

Section merge_facts.

Import AIDevOpsAgent.

Lemma compareIssues_before (a b : CodeIssue) :
  (compareIssues a b <= 0)%Z <-> before a b.
Proof.
  unfold compareIssues, before.
  destruct (severity a), (severity b); cbn [severityOrder];
    case_Zeqb; try lia;
    (split; [intros H; first [left; lia | right; split; [reflexivity | lia] | lia]
            | intros [H | [H1 H2]]; first [lia | discriminate]]).
Qed.

Lemma compareIssues_total (a b : CodeIssue) :
  (0 < compareIssues a b)%Z -> (compareIssues b a <= 0)%Z.
Proof.
  unfold compareIssues.
  destruct (severity a), (severity b); cbn [severityOrder];
    intros; repeat case_Zeqb; lia.
Qed.

Lemma compareIssues_trans (a b c : CodeIssue) :
  (compareIssues a b <= 0)%Z -> (compareIssues b c <= 0)%Z ->
  (compareIssues a c <= 0)%Z.
Proof.
  unfold compareIssues.
  destruct (severity a), (severity b), (severity c); cbn [severityOrder];
    intros; repeat case_Zeqb; lia.
Qed.


(** The loop of [mergeIssues] keeps, after [merged], the elements of
    [aiIssues] whose key was not seen before them. *)
Lemma addUnseen_unseenFrom (aiIssues merged : list CodeIssue) (seen : gset string)
    (earlier : list string) :
  (forall k, k ∈ seen <-> k ∈ earlier) ->
  addUnseen aiIssues merged seen = merged ++ unseenFrom earlier aiIssues.
Proof.
  revert merged seen earlier.
  induction aiIssues as [|x rest IH]; intros merged seen earlier Hseen.
  - cbn. rewrite app_nil_r. reflexivity.
  - cbn [addUnseen unseenFrom].
    destruct (decide (issueKey x ∈ seen)) as [Hin|Hnin];
      destruct (decide (issueKey x ∈ earlier)) as [Hin'|Hnin'];
      try (exfalso; apply Hseen in Hin || apply Hseen in Hin'; tauto).
    + rewrite (IH merged seen (earlier ++ [issueKey x])); [reflexivity|].
      intros k. rewrite elem_of_app, list_elem_of_singleton, <- Hseen.
      split; [auto | intros [?| ->]; assumption].
    + rewrite (IH (merged ++ [x]) ({[issueKey x]} ∪ seen) (earlier ++ [issueKey x])).
      * rewrite <- app_assoc. reflexivity.
      * intros k.
        rewrite elem_of_app, list_elem_of_singleton, elem_of_union, elem_of_singleton,
          <- Hseen.
        tauto.
Qed.

(** [mergeIssues] sorts [primary] followed by what it keeps of [secondary]. *)
Lemma mergeIssues_unfold (primary secondary : list CodeIssue) :
  mergeIssues primary secondary
  = array_sort compareIssues (primary ++ keptOf primary secondary).
Proof.
  unfold mergeIssues, keptOf. cbv zeta.
  rewrite (addUnseen_unseenFrom _ _ _ (map issueKey primary)); [reflexivity|].
  intros k. rewrite elem_of_list_to_set. reflexivity.
Qed.

(** The kept elements come from [secondary] in its order, their keys are
    new, and no two of them share a key. *)
Lemma unseenFrom_facts (earlier : list string) (secondary : list CodeIssue) :
  sublist (unseenFrom earlier secondary) secondary
  /\ Forall (fun x => issueKey x ∉ earlier) (unseenFrom earlier secondary)
  /\ NoDup (map issueKey (unseenFrom earlier secondary)).
Proof.
  revert earlier. induction secondary as [|x rest IH]; intros earlier.
  - cbn. repeat split; constructor.
  - cbn [unseenFrom].
    destruct (IH (earlier ++ [issueKey x])) as (Hsub & Hnew & Hnd).
    assert (Forall (fun y => (issueKey y ∉ earlier) /\ issueKey y <> issueKey x)
              (unseenFrom (earlier ++ [issueKey x]) rest)) as Hnew'.
    { eapply Forall_impl; [exact Hnew|]. intros y Hy. cbv beta in *.
      rewrite elem_of_app, list_elem_of_singleton in Hy. tauto. }
    destruct (decide (issueKey x ∈ earlier)) as [Hin|Hnin]; cbn [app].
    + repeat split; [apply sublist_cons; exact Hsub| |exact Hnd].
      eapply Forall_impl; [exact Hnew'|]. intros y [Hy _]. exact Hy.
    + repeat split.
      * apply sublist_skip. exact Hsub.
      * constructor; [exact Hnin|].
        eapply Forall_impl; [exact Hnew'|]. intros y [Hy _]. exact Hy.
      * cbn [map]. constructor; [|exact Hnd].
        rewrite list_elem_of_fmap. intros (y & Heq & Hy).
        rewrite Forall_forall in Hnew'. destruct (Hnew' y Hy) as [_ Hne]. congruence.
Qed.


Lemma unseenFrom_all_seen (earlier : list string) (secondary : list CodeIssue) :
  Forall (fun x => issueKey x ∈ earlier) secondary ->
  unseenFrom earlier secondary = [].
Proof.
  revert earlier. induction secondary as [|x rest IH]; intros earlier Hall;
    [reflexivity|].
  apply Forall_cons in Hall as [Hx Hrest]. cbn [unseenFrom].
  rewrite decide_True by exact Hx. cbn [app]. apply IH.
  eapply Forall_impl; [exact Hrest|]. intros y Hy. cbv beta in *.
  apply elem_of_app. left. exact Hy.
Qed.

(** An issue with the triple of another has its key. *)
Lemma issueKey_of_triple (a b : CodeIssue) :
  keyTriple a = keyTriple b -> issueKey a = issueKey b.
Proof.
  unfold keyTriple, issueKey. intros [= -> -> ->]. reflexivity.
Qed.

(** A kept element has a triple that no element of [primary] has. *)
Lemma keptOf_triple_new (primary secondary : list CodeIssue) (x : CodeIssue) :
  x ∈ keptOf primary secondary -> keyTriple x ∉ map keyTriple primary.
Proof.
  intros Hx Hin.
  destruct (unseenFrom_facts (map issueKey primary) secondary) as (_ & Hnew & _).
  rewrite Forall_forall in Hnew. apply (Hnew x Hx).
  apply list_elem_of_fmap in Hin as (y & Heq & Hy).
  apply list_elem_of_fmap. exists y. split; [|exact Hy].
  apply issueKey_of_triple. exact Heq.
Qed.

(** Distinct keys are distinct triples. *)
Lemma NoDup_keyTriple (l : list CodeIssue) :
  NoDup (map issueKey l) -> NoDup (map keyTriple l).
Proof.
  intros H.
  apply (NoDup_fmap_1 (fun t : string * Z * string =>
           t.1.1 +:+ ":" +:+ pretty t.1.2 +:+ ":" +:+ t.2)).
  rewrite <- list_fmap_compose. exact H.
Qed.


(** The scenario of the specification: the local finding wins over the
    service's duplicate, and the output is ordered by severity rank. *)
Example mergeIssues_scenario :
  mergeIssues [issueAt low 5 "M1"] [issueAt critical 5 "M1"; issueAt high 2 "M2"]
  = [issueAt high 2 "M2"; issueAt low 5 "M1"].
Proof. vm_compute. reflexivity. Qed.

(** Merging a list with itself keeps nothing of the second copy. *)
Lemma mergeIssues_self (A : list CodeIssue) :
  mergeIssues A A = array_sort compareIssues A.
Proof.
  rewrite mergeIssues_unfold. unfold keptOf.
  rewrite unseenFrom_all_seen, app_nil_r; [reflexivity|].
  apply Forall_forall. intros x Hx. apply list_elem_of_fmap. eauto.
Qed.

(** C2, as the code has it. [mergeIssues] always sorts: merging a list with
    itself returns the list when the list is already ordered by severity
    rank and then line. *)
Theorem mergeIssues_self_ordered (A : list CodeIssue) :
  StronglySorted before A -> mergeIssues A A = A.
Proof.
  intros Hs. rewrite mergeIssues_self. apply array_sort_fixed.
  eapply StronglySorted_weaken; [|exact Hs].
  intros a b Hab. apply compareIssues_before. exact Hab.
Qed.

Lemma mergeIssues_self_ordered_witness :
  mergeIssues [issueAt critical 7 "M2"; issueAt low 5 "M1"]
              [issueAt critical 7 "M2"; issueAt low 5 "M1"]
  = [issueAt critical 7 "M2"; issueAt low 5 "M1"].
Proof.
  apply (mergeIssues_self_ordered [issueAt critical 7 "M2"; issueAt low 5 "M1"]).
  apply SSorted_cons; [apply SSorted_cons; [apply SSorted_nil | constructor]|].
  constructor; [left; reflexivity | constructor].
Defined.

(** C2 fails as stated: a list that is not in output order comes back
    reordered. *)
Lemma mergeIssues_self_reorders :
  mergeIssues [issueAt low 5 "M1"; issueAt critical 7 "M2"]
              [issueAt low 5 "M1"; issueAt critical 7 "M2"]
  = [issueAt critical 7 "M2"; issueAt low 5 "M1"]
  /\ mergeIssues [issueAt low 5 "M1"; issueAt critical 7 "M2"]
                 [issueAt low 5 "M1"; issueAt critical 7 "M2"]
     <> [issueAt low 5 "M1"; issueAt critical 7 "M2"].
Proof. split; [vm_compute; reflexivity | vm_compute; discriminate]. Qed.

(** No two findings of the output share the key text that the code
    builds, when no two of the first list do. *)
Lemma mergeIssues_distinct_issueKeys (A B : list CodeIssue) :
  NoDup (map issueKey A) -> NoDup (map issueKey (mergeIssues A B)).
Proof.
  intros HA. rewrite mergeIssues_unfold.
  rewrite (Permutation_map issueKey (array_sort_Permutation compareIssues _)).
  rewrite map_app. apply NoDup_app.
  destruct (unseenFrom_facts (map issueKey A) B) as (_ & Hnew & Hnd).
  split; [exact HA|]. split; [|exact Hnd].
  intros k Hk Hk'. apply list_elem_of_fmap in Hk' as (x & -> & Hx).
  rewrite Forall_forall in Hnew. exact (Hnew x Hx Hk).
Qed.

(** C4, as the code has it. All of the first list is kept, duplicates
    included; when no two findings of the first list share a (file, line,
    message) key, no two findings of the output do. *)
Theorem mergeIssues_distinct_keys (A B : list CodeIssue) :
  NoDup (map keyTriple A) -> NoDup (map keyTriple (mergeIssues A B)).
Proof.
  intros HA. rewrite mergeIssues_unfold.
  rewrite (Permutation_map keyTriple (array_sort_Permutation compareIssues _)).
  rewrite map_app. apply NoDup_app.
  split; [exact HA|]. split.
  - intros t Ht Ht'. apply list_elem_of_fmap in Ht' as (x & -> & Hx).
    exact (keptOf_triple_new A B x Hx Ht).
  - apply NoDup_keyTriple.
    destruct (unseenFrom_facts (map issueKey A) B) as (_ & _ & Hnd). exact Hnd.
Qed.

Lemma mergeIssues_distinct_keys_witness :
  NoDup (map keyTriple
           (mergeIssues [issueAt low 5 "M1"]
                        [issueAt critical 5 "M1"; issueAt high 2 "M2"; issueAt low 2 "M2"])).
Proof.
  apply (mergeIssues_distinct_keys [issueAt low 5 "M1"]).
  repeat constructor. intros H. inversion H.
Defined.

(** C4 fails as stated: a key that occurs twice in the first list occurs
    twice in the output. *)
Lemma mergeIssues_keeps_primary_duplicates :
  mergeIssues [issueAt low 5 "M1"; issueAt low 5 "M1"] []
  = [issueAt low 5 "M1"; issueAt low 5 "M1"]
  /\ ~ NoDup (map keyTriple
               (mergeIssues [issueAt low 5 "M1"; issueAt low 5 "M1"] [])).
Proof.
  split; [vm_compute; reflexivity|].
  intros H. vm_compute in H. apply NoDup_cons in H as [H _].
  apply H. constructor.
Qed.

End merge_facts.

(** ** [applyAIFixes] *)

Section fix_facts.

Import AIDevOpsAgent.

Variable generateFix : nat -> string -> CodeIssue -> exn AIFixResult.



End fix_facts.

Section fix_disk_facts.

Import AIDevOpsAgent.

Variable generateFix : nat -> string -> CodeIssue -> exn AIFixResult.




End fix_disk_facts.

Section fix_examples.

Import AIDevOpsAgent.



(** The scenario of the specification: a proposal of confidence 65 leaves
    the text as it was, with [fixed] 0 and [failed] 1. *)
Example confidence_gate_scenario_65 :
  let st' := fixIssues (scripted [Ok (proposal "v1" 65)]) "a.js" [issueAt high 3 "M"]
               (startOn (diskWith "a.js" "v0" false) "v0") in
  content st' = "v0" /\ files (disk st') !! "a.js" = Some "v0"
  /\ fixed st' = 0 /\ failed st' = 1.
Proof. cbv zeta. repeat split; vm_compute; reflexivity. Qed.

(** The scenario of the specification: two proposals applied in a row
    (confidence 90, then 80); the second is asked for the text the first
    left. A third request is rejected and the batch still ends. *)
Example confidence_gate_scenario_sequence :
  let st' := fixIssues appending "a.js"
               [issueAt high 3 "A"; issueAt critical 9 "B"; issueAt high 1 "C"]
               (startOn (diskWith "a.js" "v0" false) "v0") in
  content st' = "v0+A+B" /\ files (disk st') !! "a.js" = Some "v0+A+B"
  /\ fixed st' = 2 /\ failed st' = 1 /\ map detail_confidence (details st') = [90; 80]%Z.
Proof. cbv zeta. repeat split; vm_compute; reflexivity. Qed.



End fix_examples.

(** * Further properties *)

(** ** The other parsers of [ai-analyzer.ts] *)

Section more_parser_facts.

Import AIAnalyzer.

Lemma or_else_truthy (a b : value) : truthy b = true -> truthy (or_else a b) = true.
Proof. intros Hb. unfold or_else. destruct (truthy a) eqn:Ha; assumption. Qed.

Lemma or_else_cases (a b : value) :
  (truthy a = true /\ or_else a b = a) \/ (truthy a = false /\ or_else a b = b).
Proof. unfold or_else. destruct (truthy a); auto. Qed.


(** X2. The fix parser never returns a falsy patched text in place of the
    original: the patched text is the original code or a truthy value (an
    empty patched text in the reply is replaced by the original code), the
    confidence is 0 or a truthy value, and [originalCode] is the code passed
    in. *)
Theorem fix_proposal_members (response originalCode : string) :
  exists p,
    parseFixResponse response originalCode = Ok p
    /\ AIAnalyzer.originalCode p = originalCode
    /\ (fixedCode p = JString originalCode \/ truthy (fixedCode p) = true)
    /\ (confidence p = JNumber (Num 0 0) \/ truthy (confidence p) = true)
    /\ truthy (explanation p) = true.
Proof.
  unfold parseFixResponse. rewrite try_catch_default.
  eexists. split; [reflexivity|].
  destruct (jsonMatch response) as [span|]; cbn [or_throw bind];
    [|repeat split; auto].
  destruct (JSON_parse span) as [parsed|]; cbn [or_throw bind];
    [|repeat split; auto].
  destruct (prop parsed "fixedCode") as [fc|]; cbn [bind]; [|repeat split; auto].
  destruct (prop parsed "explanation") as [ex|]; cbn [bind]; [|repeat split; auto].
  destruct (prop parsed "confidence") as [co|]; cbn [bind]; [|repeat split; auto].
  cbn [AIAnalyzer.originalCode fixedCode confidence explanation].
  split; [reflexivity|]. split; [|split].
  - destruct (or_else_cases fc (JString originalCode)) as [[Ht ->]|[_ ->]]; auto.
  - destruct (or_else_cases co (JNumber (Num 0 0))) as [[Ht ->]|[_ ->]]; auto.
  - apply or_else_truthy. reflexivity.
Qed.

(** X3. No issue of the analysis parser is without a line: a line that the
    reply leaves out, or gives as 0 or null, is 1; [autoFixable] is [false]
    unless the reply gave a truthy value; and the summary is never empty. *)
Theorem analysis_issue_members (response filePath : string) :
  exists r,
    parseAnalysisResponse response filePath = Ok r
    /\ Forall (fun c => truthy (line c) = true
                        /\ (autoFixable c = JBool false \/ truthy (autoFixable c) = true))
         (issues r)
    /\ truthy (summary r) = true.
Proof.
  destruct (parseAnalysisResponse_total response filePath) as [r Hr].
  exists r. split; [exact Hr|].
  apply parseAnalysisResponse_cases in Hr as [-> | [parsed Hr]].
  { split; [constructor | reflexivity]. }
  unfold toAnalysisResult in Hr.
  apply bind_Ok in Hr as (raw & Hraw & Hr).
  apply bind_Ok in Hr as (cs & Hcs & Hr).
  do 4 bind_inv Hr. injection Hr as <-. cbn [issues summary].
  split; [|apply or_else_truthy; reflexivity].
  unfold array_map in Hcs.
  destruct (or_else raw (JArray [])); try discriminate.
  apply map_exn_Forall2 in Hcs.
  induction Hcs as [|x c xs cs' Hx _ IH]; [constructor|].
  constructor; [|exact IH].
  unfold toCodeIssue in Hx. do 6 bind_inv Hx. injection Hx as <-.
  cbn [line autoFixable]. split.
  - apply or_else_truthy. reflexivity.
  - match goal with |- or_else ?a ?b = _ \/ _ =>
      destruct (or_else_cases a b) as [[Ht ->]|[_ ->]]; auto end.
Qed.

(** X4. [generateFix] fails only with its request: a rejected request is passed
    on, and an answered one gives a proposal whatever the reply says, for the
    code that was passed in; a reply whose first block is no text gives the
    proposal that changes nothing. *)
Theorem generateFix_fails_only_with_request
    (fixClient : FixPrompt -> exn Message) (code : string) (issue : CodeIssue)
    (context : option string) :
  let request :=
    fixClient {| fix_code := code; fix_issue := issue; fix_context := context |} in
  (forall e, request = Throw e -> generateFix fixClient code issue context = Throw e)
  /\ (forall message,
        request = Ok message -> AIAnalyzer.content message <> [] ->
        exists p, generateFix fixClient code issue context = Ok p
                  /\ AIAnalyzer.originalCode p = code)
  /\ (forall blocks,
        request = Ok {| AIAnalyzer.content := OtherBlock :: blocks |} ->
        generateFix fixClient code issue context = Ok (failedFix code)).
Proof.
  cbv zeta. unfold generateFix. split; [|split].
  - intros e ->. reflexivity.
  - intros message -> Hne. cbn [bind]. unfold responseText.
    destruct (AIAnalyzer.content message) as [|[text|] blocks]; [congruence| |]; cbn [bind].
    + destruct (fix_proposal_members text code) as (p & -> & Ho & _). eauto.
    + destruct (fix_proposal_members "" code) as (p & -> & Ho & _). eauto.
  - intros blocks ->. reflexivity.
Qed.

End more_parser_facts.

(** ** [generateReport] and [findFiles] *)

Section report_facts.

Import AIDevOpsAgent.



Lemma uniqueFrom_spec (seen : gset string) (a : list string) :
  NoDup (uniqueFrom seen a)
  /\ (forall x, x ∈ uniqueFrom seen a <-> x ∈ a /\ x ∉ seen)
  /\ sublist (uniqueFrom seen a) a.
Proof.
  revert seen. induction a as [|y r IH]; intros seen; cbn [uniqueFrom].
  - split; [constructor|]. split; [|constructor].
    intros x. split; [intros H; inversion H | intros [H _]; inversion H].
  - destruct (decide (y ∈ seen)) as [Hin|Hnin].
    + destruct (IH seen) as (Hnd & Hmem & Hsub).
      split; [exact Hnd|]. split; [|apply sublist_cons; exact Hsub].
      intros x. rewrite Hmem, elem_of_cons. split; [tauto|].
      intros [[-> | Hx] Hn]; [contradiction | tauto].
    + destruct (IH ({[y]} ∪ seen)) as (Hnd & Hmem & Hsub).
      split; [|split; [|apply sublist_skip; exact Hsub]].
      * constructor; [|exact Hnd]. rewrite Hmem.
        intros [_ Hn]. apply Hn. apply elem_of_union. left. apply elem_of_singleton.
        reflexivity.
      * intros x. rewrite !elem_of_cons, Hmem, elem_of_union, elem_of_singleton.
        split.
        -- intros [-> | [Hx Hn]]; [tauto|]. split; [tauto|]. intros Hs. apply Hn. tauto.
        -- intros [[-> | Hx] Hn]; [tauto|].
           destruct (decide (x = y)) as [->|Hne]; [tauto|]. right. tauto.
Qed.

Section findFiles_facts.

Variable pathJoin : string -> string -> string.
Variable glob : string -> list string -> exn (list string).

Lemma globAll_Ok (config : AgentConfig) (patterns allFiles files : list string) :
  globAll glob config patterns allFiles = Ok files ->
  forall f, f ∈ files <->
    f ∈ allFiles
    \/ exists pattern found,
         pattern ∈ patterns
         /\ glob pattern (excludePatterns config) = Ok found /\ f ∈ found.
Proof.
  revert allFiles. induction patterns as [|p rest IH]; intros allFiles H f;
    cbn [globAll] in H.
  - injection H as <-. split; [auto|].
    intros [Hf | (p & found & Hp & _)]; [exact Hf | inversion Hp].
  - apply bind_Ok in H as (found & Hfound & H).
    rewrite (IH _ H f), elem_of_app. split.
    + intros [[Hf | Hf] | (p' & found' & Hp' & Hg & Hf)].
      * left. exact Hf.
      * right. exists p, found. split; [apply list_elem_of_here | auto].
      * right. exists p', found'. split; [apply list_elem_of_further; exact Hp' | auto].
    + intros [Hf | (p' & found' & Hp' & Hg & Hf)]; [auto|].
      apply elem_of_cons in Hp' as [-> | Hp'].
      * rewrite Hfound in Hg. injection Hg as <-. auto.
      * right. exists p', found'. auto.
Qed.

Lemma findFiles_NoDup (config : AgentConfig) (files : list string) :
  findFiles pathJoin glob config = Ok files -> NoDup files.
Proof.
  unfold findFiles. intros H. apply bind_Ok in H as (allFiles & _ & H).
  injection H as <-. apply uniqueFrom_spec.
Qed.

(** X6. [findFiles] lists no file twice, also when the patterns overlap; it
    lists exactly the files that the search found for one of the patterns of
    the configuration, each pattern joined to the target path. *)
Theorem findFiles_unique (config : AgentConfig) (files : list string) :
  findFiles pathJoin glob config = Ok files ->
  NoDup files
  /\ forall f, f ∈ files <->
       exists pattern found,
         pattern ∈ filePatterns config
         /\ glob (pathJoin (targetPath config) pattern) (excludePatterns config) = Ok found
         /\ f ∈ found.
Proof.
  unfold findFiles. intros H. apply bind_Ok in H as (allFiles & Hall & H).
  injection H as <-. unfold unique.
  destruct (uniqueFrom_spec ∅ allFiles) as (Hnd & Hmem & _).
  split; [exact Hnd|]. intros f.
  rewrite Hmem, (globAll_Ok _ _ _ _ Hall f). split.
  - intros [[Hf | (p & found & Hp & Hg & Hf)] _]; [inversion Hf|].
    apply list_elem_of_fmap in Hp as (pattern & -> & Hp). eauto.
  - intros (pattern & found & Hp & Hg & Hf). split; [|apply not_elem_of_empty].
    right. exists (pathJoin (targetPath config) pattern), found.
    split; [apply list_elem_of_fmap; eauto | auto].
Qed.

End findFiles_facts.

(** Two patterns that both match a.ts: it is listed once. *)
Lemma findFiles_unique_witness :
  findFiles joinPath overlapping (makeConfig "src" (Some ["**/*.ts"; "**/*"]) None)
  = Ok ["/p/src/a.ts"; "/p/src/b.ts"; "/p/src/c.js"]
  /\ NoDup ["/p/src/a.ts"; "/p/src/b.ts"; "/p/src/c.js"].
Proof.
  assert (findFiles joinPath overlapping
            (makeConfig "src" (Some ["**/*.ts"; "**/*"]) None)
          = Ok ["/p/src/a.ts"; "/p/src/b.ts"; "/p/src/c.js"]) as H
    by (vm_compute; reflexivity).
  split; [exact H|].
  exact (proj1 (findFiles_unique _ _ _ _ H)).
Defined.

End report_facts.

(** ** Lines and regular expressions *)

Lemma split_lines_cons (s : string) : exists l ls, split_lines s = l :: ls.
Proof.
  destruct s as [|c r]; cbn [split_lines]; [eauto|].
  destruct (c =? newline)%char; [eauto|].
  destruct (split_lines r); eauto.
Qed.

(** Joining the lines of a text gives the text back. *)
Lemma join_split (s : string) : join_lines (split_lines s) = s.
Proof.
  induction s as [|c r IH]; [reflexivity|].
  cbn [split_lines].
  destruct (Ascii.eqb_spec c newline) as [->|Hc].
  - destruct (split_lines_cons r) as (l & ls & Hr). rewrite Hr in *.
    cbn [join_lines] in *. rewrite append_empty_l, IH. reflexivity.
  - destruct (split_lines_cons r) as (l & ls & Hr). rewrite Hr in *.
    destruct ls as [|l2 ls]; cbn [join_lines] in *; [congruence|].
    rewrite append_cons, IH. reflexivity.
Qed.

Section regexp_facts.

Import RegExp.

Lemma first_of_Some {A B : Type} (f : A -> option B) (l : list A) (y : B) :
  first_of f l = Some y -> exists x, In x l /\ f x = Some y.
Proof.
  induction l as [|x r IH]; cbn [first_of]; [discriminate|].
  destruct (f x) as [y'|] eqn:Hx.
  - intros [= <-]. exists x. split; [left; reflexivity | exact Hx].
  - intros H. destruct (IH H) as (x' & Hin & Hx'). exists x'. split; [right|]; assumption.
Qed.

Lemma first_of_found {A B : Type} (f : A -> option B) (l : list A) (x : A) :
  In x l -> is_Some (f x) -> is_Some (first_of f l).
Proof.
  induction l as [|x' r IH]; cbn [first_of]; [intros []|].
  intros [->|Hin] Hx.
  - destruct Hx as [y ->]. eauto.
  - destruct (f x'); [eauto | apply IH; assumption].
Qed.

(** A text that begins with a match of a pattern followed by another begins
    with a match of the first. *)
Lemma match_here_prefix (ignoreCase : bool) (r r' : regex) (prev : option ascii)
    (s : string) :
  is_Some (match_here ignoreCase (r ++ r') prev s) ->
  is_Some (match_here ignoreCase r prev s).
Proof.
  revert prev s. induction r as [|a r IH]; intros prev s; [cbn; eauto|].
  assert (forall l,
    is_Some (first_of (fun '(p, t) => match_here ignoreCase (r ++ r') p t) l) ->
    is_Some (first_of (fun '(p, t) => match_here ignoreCase r p t) l)) as Hfirst.
  { intros l [y Hy]. apply first_of_Some in Hy as ([p t] & Hin & Hy).
    apply (first_of_found _ _ (p, t)); [exact Hin|]. apply IH. eauto. }
  cbn [app match_here]. destruct a as [c|k|k|k|k|].
  - destruct s as [|d t]; [intros [? [=]]|].
    destruct (same ignoreCase c d); [apply IH | intros [? [=]]].
  - destruct (step ignoreCase k s) as [[p t]|]; [apply IH | intros [? [=]]].
  - apply Hfirst.
  - destruct (step ignoreCase k s) as [[p t]|]; [apply Hfirst | intros [? [=]]].
  - destruct (step ignoreCase k s) as [[p t]|]; [|apply IH].
    destruct (match_here ignoreCase (r ++ r') (Some p) t) eqn:H1.
    + intros _. destruct (IH (Some p) t) as [y ->]; eauto.
    + intros H. apply IH in H.
      destruct (match_here ignoreCase r (Some p) t); [eauto | exact H].
  - destruct (xorb (word_before prev) (word_after s)); [apply IH | intros [? [=]]].
Qed.

Lemma test_from_prefix (ignoreCase : bool) (r r' : regex) (prev : option ascii)
    (s : string) :
  test_from ignoreCase (r ++ r') prev s = true -> test_from ignoreCase r prev s = true.
Proof.
  revert prev. induction s as [|c t IH]; intros prev; cbn [test_from].
  - destruct (match_here ignoreCase (r ++ r') prev "") eqn:H; [|discriminate].
    intros _. destruct (match_here_prefix ignoreCase r r' prev "") as [y ->]; eauto.
  - destruct (match_here ignoreCase (r ++ r') prev (String c t)) eqn:H.
    + intros _.
      destruct (match_here_prefix ignoreCase r r' prev (String c t)) as [y ->]; eauto.
    + intros Ht. apply IH in Ht.
      destruct (match_here ignoreCase r prev (String c t)); [reflexivity | exact Ht].
Qed.

(** White space does not begin with a character of a word. *)
Lemma step_space_not_word (s : string) (p : ascii) (t : string) :
  step false space s = Some (p, t) -> word_after s = false.
Proof.
  destruct s as [|c r]; [discriminate|].
  cbn [step single double triple word_after].
  destruct (is_word c) eqn:Hw; [|reflexivity].
  assert (space1 (nat_of_ascii c) = false
          /\ (forall n2, space2 (nat_of_ascii c) n2 = false)
          /\ (forall n2 n3, space3 (nat_of_ascii c) n2 n3 = false)) as (H1 & H2 & H3).
  { revert Hw. destruct c as [[] [] [] [] [] [] [] []]; vm_compute;
      first [discriminate | intros _; repeat split; intros; reflexivity]. }
  rewrite H1. destruct r as [|c2 r2]; [discriminate|]. rewrite H2.
  destruct r2 as [|c3 r3]; [discriminate|]. rewrite H3. discriminate.
Qed.

End regexp_facts.

(** ** [analyzeFile] *)

Section analyzer_rule_facts.

Import RegExp AIDevOpsAgent CodeAnalyzer.

Lemma forEachLine_In (found : string -> nat -> list string -> list CodeIssue)
    (lines : list string) (k : nat) (i : CodeIssue) :
  In i (forEachLine found lines k) <->
  exists n l, lines !! n = Some l /\ In i (found l (k + n) (drop (S n) lines)).
Proof.
  revert k. induction lines as [|l0 rest IH]; intros k; cbn [forEachLine].
  - split; [intros [] | intros (n & l & H & _); destruct n; discriminate].
  - rewrite in_app_iff, IH. split.
    + intros [H | (n & l & Hl & H)].
      * exists 0, l0. rewrite Nat.add_0_r. split; [reflexivity | exact H].
      * exists (S n), l. rewrite Nat.add_succ_r. split; [exact Hl | exact H].
    + intros (n & l & Hl & H). destruct n as [|n].
      * left. cbn in Hl. injection Hl as <-. rewrite Nat.add_0_r in H. exact H.
      * right. exists n, l. rewrite Nat.add_succ_r in H. split; [exact Hl | exact H].
Qed.

(** The issues of [analyzeFile] are those of the rules. *)
Lemma analyzeFile_In (content filePath : string) (i : CodeIssue) :
  In i (analyzeFile content filePath) <->
  exists rule, In rule rules /\ In i (check rule content filePath).
Proof.
  unfold analyzeFile. cbv zeta.
  rewrite <- in_flat_map.
  split; apply Permutation_in;
    [|symmetry]; apply array_sort_Permutation.
Qed.

Lemma check_reportedBy (rule : AnalyzerRule) (content filePath : string) (i : CodeIssue) :
  In rule rules -> In i (check rule content filePath) ->
  exists n l, split_lines content !! n = Some l /\ reportedBy rule filePath l n i.
Proof.
  unfold rules, reportedBy.
  intros Hrule Hi.
  repeat (destruct Hrule as [<-|Hrule]); [..|destruct Hrule];
    cbn [check noEval noConsoleLog noVar noAnyType noEmptyCatch
           noHardcodedCredentials noTodoComments noDebugger] in Hi;
    try (destruct (negb (endsWith filePath ".ts") && negb (endsWith filePath ".tsx"));
         [destruct Hi|]);
    apply forEachLine_In in Hi as (n & l & Hl & Hi); exists n, l; (split; [exact Hl|]);
    cbn [Nat.add] in Hi;
    try (apply in_flat_map in Hi as (pattern & _ & Hi));
    repeat match type of Hi with
           | In _ (if ?b then _ else _) => destruct b
           | In _ (match ?x with _ => _ end) => destruct x
           | In _ [] => destruct Hi
           end;
    destruct Hi as [<-|[]]; cbn; eauto 10.
Qed.

(** The issues that can be fixed come from three rules, on lines that are
    not comments. *)
Lemma fixable_origin (content filePath : string) (i : CodeIssue) :
  In i (analyzeFile content filePath) -> autoFixable i = true ->
  exists n l,
    split_lines content !! n = Some l /\ line i = (Z.of_nat n + 1)%Z
    /\ notCommented l = true
    /\ ((category i = "Code Quality"
         /\ (test false consoleLogCall l = true \/ test false debuggerStatement l = true))
        \/ (category i = "Best Practices" /\ test false varDeclaration l = true)).
Proof.
  intros Hi Hfix. apply analyzeFile_In in Hi as (rule & Hrule & Hi).
  unfold rules in Hrule.
  repeat (destruct Hrule as [<-|Hrule]); [..|destruct Hrule];
    cbn [check noEval noConsoleLog noVar noAnyType noEmptyCatch
           noHardcodedCredentials noTodoComments noDebugger] in Hi;
    try (destruct (negb (endsWith filePath ".ts") && negb (endsWith filePath ".tsx"));
         [destruct Hi|]);
    apply forEachLine_In in Hi as (n & l & Hl & Hi); exists n, l; (split; [exact Hl|]);
    cbn [Nat.add] in Hi;
    try (apply in_flat_map in Hi as (pattern & _ & Hi));
    repeat match type of Hi with
           | In _ (if ?b then _ else _) => destruct b eqn:?
           | In _ (match ?x with _ => _ end) => destruct x
           | In _ [] => destruct Hi
           end;
    destruct Hi as [<-|[]]; cbn in Hfix; try discriminate;
    match goal with H : (_ && _) = true |- _ => apply andb_true_iff in H as [Ht Hc] end;
    cbn; auto 10.
Qed.

(** *** Where an issue points *)

(** X7. Every issue that [analyzeFile] reports for a text names the path
    it was given and a line that the text has, quotes that line without the
    white space around it, comes with a suggestion and no column, and has
    the category and the severity of one of the eight rules. *)
Theorem analyzeFile_issue_location (content filePath : string) (i : CodeIssue) :
  In i (analyzeFile content filePath) ->
  exists rule n l,
    In rule rules /\ split_lines content !! n = Some l
    /\ reportedBy rule filePath l n i.
Proof.
  intros Hi. apply analyzeFile_In in Hi as (rule & Hrule & Hi).
  destruct (check_reportedBy rule content filePath i Hrule Hi) as (n & l & Hl & H).
  exists rule, n, l. auto.
Qed.

Lemma analyzeFile_issue_location_witness :
  exists rule n l,
    In rule rules /\ split_lines "let v: any = 3;" !! n = Some l
    /\ reportedBy rule "a.ts" l n
         (nth 0 (analyzeFile "let v: any = 3;" "a.ts") (issueAt low 0 "")).
Proof.
  apply (analyzeFile_issue_location "let v: any = 3;" "a.ts").
  vm_compute. auto.
Defined.

(** X8. The issues of [analyzeFile] are ordered by severity and then by
    line, so that sorting them again, or merging them with no issue of the
    model, changes nothing. *)
Theorem analyzeFile_ordered (content filePath : string) :
  StronglySorted before (analyzeFile content filePath)
  /\ array_sort compareIssues (analyzeFile content filePath)
     = analyzeFile content filePath
  /\ mergeIssues (analyzeFile content filePath) [] = analyzeFile content filePath.
Proof.
  assert (StronglySorted (fun a b => (compareIssues a b <= 0)%Z)
            (analyzeFile content filePath)) as Hs.
  { apply array_sort_sorted; [apply compareIssues_total | apply compareIssues_trans]. }
  split; [|split].
  - eapply StronglySorted_weaken; [|exact Hs]. intros a b. apply compareIssues_before.
  - apply array_sort_fixed. exact Hs.
  - rewrite mergeIssues_unfold. unfold keptOf. cbn [unseenFrom]. rewrite app_nil_r.
    apply array_sort_fixed. exact Hs.
Qed.

(** X9. An issue of the category Type Safety is reported only for a path
    that ends in [.ts] or [.tsx]. *)
Theorem any_type_only_in_typescript (content filePath : string) (i : CodeIssue) :
  In i (analyzeFile content filePath) -> category i = "Type Safety" ->
  endsWith filePath ".ts" = true \/ endsWith filePath ".tsx" = true.
Proof.
  intros Hi Hcat. apply analyzeFile_In in Hi as (rule & Hrule & Hi).
  destruct (check_reportedBy rule content filePath i Hrule Hi)
    as (n & l & _ & _ & _ & _ & _ & _ & Hc & _).
  rewrite Hcat in Hc. unfold rules in Hrule.
  repeat (destruct Hrule as [<-|Hrule]); [..|destruct Hrule]; try discriminate Hc.
  cbn [check noAnyType] in Hi.
  destruct (endsWith filePath ".ts"); [left; reflexivity|].
  destruct (endsWith filePath ".tsx"); [right; reflexivity|].
  destruct Hi.
Qed.

Lemma any_type_only_in_typescript_witness :
  endsWith "a.ts" ".ts" = true \/ endsWith "a.ts" ".tsx" = true.
Proof.
  apply (any_type_only_in_typescript "let v: any = 3;" "a.ts"
           (nth 0 (analyzeFile "let v: any = 3;" "a.ts") (issueAt low 0 ""))).
  - vm_compute. auto.
  - vm_compute. reflexivity.
Defined.

End analyzer_rule_facts.

(** ** [applyFixesToFile] *)

Section fixer_facts.

Import RegExp AIDevOpsAgent CodeAnalyzer DevOpsAgent.

(** A declaration with [var] holds the keyword [var]. *)
Lemma varKeyword_here (prev : option ascii) (s rest : string) :
  match_here false varKeyword prev s = Some rest -> s = "var" +:+ rest.
Proof.
  unfold varKeyword. cbn [lit app match_here].
  destruct (xorb (word_before prev) (word_after s)); [|discriminate].
  destruct s as [|c1 s]; [discriminate|]. cbn [same].
  destruct (Ascii.eqb_spec "v" c1) as [<-|]; [|discriminate].
  destruct s as [|c2 s]; [discriminate|].
  destruct (Ascii.eqb_spec "a" c2) as [<-|]; [|discriminate].
  destruct s as [|c3 s]; [discriminate|].
  destruct (Ascii.eqb_spec "r" c3) as [<-|]; [|discriminate].
  destruct (xorb _ _); [|discriminate].
  intros [= <-]. reflexivity.
Qed.

Lemma varDeclaration_here (prev : option ascii) (s : string) :
  is_Some (match_here false varDeclaration prev s) ->
  is_Some (match_here false varKeyword prev s).
Proof.
  unfold varDeclaration, varKeyword. cbn [lit app match_here].
  destruct (xorb (word_before prev) (word_after s)); [|intros [? [=]]].
  destruct s as [|c1 s]; [intros [? [=]]|]. cbn [same].
  destruct (Ascii.eqb_spec "v" c1) as [<-|]; [|intros [? [=]]].
  destruct s as [|c2 s]; [intros [? [=]]|].
  destruct (Ascii.eqb_spec "a" c2) as [<-|]; [|intros [? [=]]].
  destruct s as [|c3 s]; [intros [? [=]]|].
  destruct (Ascii.eqb_spec "r" c3) as [<-|]; [|intros [? [=]]].
  destruct (step false space s) as [[p t]|] eqn:Hstep; [|intros [? [=]]].
  intros _. rewrite (step_space_not_word s p t Hstep). cbn. eauto.
Qed.

Lemma test_varDeclaration_keyword (prev : option ascii) (s : string) :
  test_from false varDeclaration prev s = true ->
  test_from false varKeyword prev s = true.
Proof.
  revert prev. induction s as [|c t IH]; intros prev; cbn [test_from].
  - destruct (match_here false varDeclaration prev "") eqn:H; [|discriminate].
    intros _. destruct (varDeclaration_here prev "") as [y ->]; eauto.
  - destruct (match_here false varDeclaration prev (String c t)) eqn:H.
    + intros _. destruct (varDeclaration_here prev (String c t)) as [y ->]; eauto.
    + intros Ht. apply IH in Ht.
      destruct (match_here false varKeyword prev (String c t)); [reflexivity | exact Ht].
Qed.

Lemma length_append (a b : string) :
  String.length (a +:+ b) = String.length a + String.length b.
Proof.
  induction a as [|c a IH]; [reflexivity|].
  rewrite append_cons. cbn [String.length]. rewrite IH. reflexivity.
Qed.

(** Replacing the keyword makes the line two characters longer. *)
Lemma replace_varKeyword_length (prev : option ascii) (s : string) :
  test_from false varKeyword prev s = true ->
  String.length (replace_from varKeyword "const" prev s) = String.length s + 2.
Proof.
  revert prev. induction s as [|c t IH]; intros prev; cbn [test_from replace_from].
  - destruct (match_here false varKeyword prev "") eqn:H; [|discriminate].
    apply varKeyword_here in H. destruct s; discriminate.
  - destruct (match_here false varKeyword prev (String c t)) as [rest|] eqn:H.
    + intros _. apply varKeyword_here in H. rewrite H, !length_append. cbn. lia.
    + intros Ht. cbn [String.length]. rewrite (IH _ Ht). reflexivity.
Qed.

(** [fixLine] on a line of the text, and on no line of it. *)
Lemma fixLine_at (lines : list string) (i : CodeIssue) (n : nat) (l : string) :
  line i = (Z.of_nat n + 1)%Z -> lines !! n = Some l ->
  fixLine lines i = take n lines ++ fixOf i l ++ drop (S n) lines.
Proof.
  intros Hline Hl. unfold fixLine, fixOf. cbv zeta.
  replace (line i - 1)%Z with (Z.of_nat n) by lia.
  pose proof (lookup_lt_Some _ _ _ Hl) as Hn.
  destruct (Z.leb_spec 0 (Z.of_nat n)); [|lia].
  destruct (Z.ltb_spec (Z.of_nat n) (Z.of_nat (length lines))); [|lia].
  cbn [andb]. rewrite Nat2Z.id, Hl.
  repeat match goal with |- context [if ?b then _ else _] => destruct b end;
    cbn [app];
    first [ apply delete_take_drop
          | apply insert_take_drop; exact Hn
          | symmetry; apply take_drop_middle; exact Hl ].
Qed.

Lemma fixLine_outside (lines : list string) (i : CodeIssue) :
  (line i < 1 \/ Z.of_nat (length lines) < line i)%Z -> fixLine lines i = lines.
Proof.
  intros H. unfold fixLine. cbv zeta.
  destruct (Z.leb_spec 0 (line i - 1)); [|reflexivity].
  destruct (Z.ltb_spec (line i - 1) (Z.of_nat (length lines))); [lia | reflexivity].
Qed.

Lemma fixedAt_none (issues : list CodeIssue) (n : nat) (l : string) :
  Forall (fun b => (line b <> Z.of_nat n + 1)%Z) issues -> fixedAt issues n l = [l].
Proof.
  unfold fixedAt. induction 1 as [|b rest Hb _ IH]; [reflexivity|].
  cbn [find]. destruct (Z.eqb_spec (line b) (Z.of_nat n + 1)); [contradiction | exact IH].
Qed.

Lemma fixedAt_cons_ne (i : CodeIssue) (rest : list CodeIssue) (n : nat) (l : string) :
  (line i <> Z.of_nat n + 1)%Z -> fixedAt (i :: rest) n l = fixedAt rest n l.
Proof.
  intros H. unfold fixedAt. cbn [find].
  destruct (Z.eqb_spec (line i) (Z.of_nat n + 1)); [contradiction | reflexivity].
Qed.

Lemma fixedAt_cons_eq (i : CodeIssue) (rest : list CodeIssue) (n : nat) (l : string) :
  (line i = Z.of_nat n + 1)%Z -> fixedAt (i :: rest) n l = fixOf i l.
Proof.
  intros H. unfold fixedAt. cbn [find]. rewrite H, Z.eqb_refl. reflexivity.
Qed.

Lemma concat_imap_keep (f : nat -> string -> list string) (lines : list string) :
  (forall n l, lines !! n = Some l -> f n l = [l]) -> concat (imap f lines) = lines.
Proof.
  revert f. induction lines as [|l0 rest IH]; intros f Hf; [reflexivity|].
  cbn [imap concat]. rewrite (Hf 0 l0 eq_refl). cbn [app]. f_equal.
  apply IH. intros n l Hl. apply (Hf (S n) l Hl).
Qed.

(** The issues taken from the highest line down, each fix acts on the
    line that its issue names. *)
Lemma fold_fixLine (sorted : list CodeIssue) (lines : list string) :
  StronglySorted (fun a b => (line b < line a)%Z) sorted ->
  fold_left fixLine sorted lines = concat (imap (fixedAt sorted) lines).
Proof.
  intros Hs. revert lines. induction Hs as [|i rest Hrest IH Hi]; intros lines.
  - cbn [fold_left]. symmetry. apply concat_imap_keep. reflexivity.
  - cbn [fold_left]. rewrite IH.
    destruct (Z.ltb_spec (line i) 1) as [Hlow|Hlow];
      [|destruct (Z.ltb_spec (Z.of_nat (length lines)) (line i)) as [Hhigh|Hhigh]].
    + rewrite fixLine_outside by lia. f_equal. apply imap_ext. intros n l _.
      symmetry. apply fixedAt_cons_ne. lia.
    + rewrite fixLine_outside by lia. f_equal. apply imap_ext. intros n l Hl.
      apply lookup_lt_Some in Hl. symmetry. apply fixedAt_cons_ne. lia.
    + assert (exists n, line i = (Z.of_nat n + 1)%Z /\ n < length lines) as (n & Hn & Hlt).
      { exists (Z.to_nat (line i - 1)). lia. }
      destruct (lookup_lt_is_Some_2 lines n Hlt) as [l Hl].
      rewrite (fixLine_at lines i n l Hn Hl).
      rewrite <- (take_drop_middle lines n l Hl) at 3.
      assert (length (take n lines) = n) as Hlen by (rewrite length_take; lia).
      rewrite (imap_app _ (take n lines) (fixOf i l ++ drop (S n) lines)).
      rewrite (imap_app _ (take n lines) (l :: drop (S n) lines)).
      rewrite !concat_app, Hlen. f_equal.
      * f_equal. apply imap_ext. intros k x Hk. apply lookup_lt_Some in Hk.
        symmetry. apply fixedAt_cons_ne. lia.
      * assert (forall ls : list string,
                  concat (imap (fun k => fixedAt rest (n + k)) ls) = ls) as Hkeep.
        { intros ls. apply concat_imap_keep. intros k x _. apply fixedAt_none.
          eapply Forall_impl; [exact Hi|]. intros b Hb. cbv beta in Hb. lia. }
        rewrite Hkeep. cbn [imap concat].
        rewrite Nat.add_0_r, (fixedAt_cons_eq i rest n l Hn). f_equal.
        symmetry. apply concat_imap_keep. intros k x _. unfold compose.
        rewrite fixedAt_cons_ne by lia. apply fixedAt_none.
        eapply Forall_impl; [exact Hi|]. intros b Hb. cbv beta in Hb. lia.
Qed.

Lemma find_line_Permutation (v : Z) (l l' : list CodeIssue) :
  Permutation l l' -> NoDup (map line l) ->
  find (fun i => (line i =? v)%Z) l = find (fun i => (line i =? v)%Z) l'.
Proof.
  induction 1 as [|x l l' _ IH|x y l|l l' l'' H1 IH1 H2 IH2]; intros Hnd.
  - reflexivity.
  - cbn [find]. cbn [map] in Hnd. apply NoDup_cons in Hnd as [_ Hnd].
    rewrite (IH Hnd). reflexivity.
  - cbn [find]. cbn [map] in Hnd.
    apply NoDup_cons in Hnd as [Hne _].
    destruct (Z.eqb_spec (line x) v), (Z.eqb_spec (line y) v); try reflexivity.
    exfalso. apply Hne. replace (line x) with (line y) by congruence.
    apply list_elem_of_here.
  - rewrite (IH1 Hnd). apply IH2.
    pose proof (Permutation_map line H1) as Hp. rewrite <- Hp. exact Hnd.
Qed.

Lemma descending_strict (l : list CodeIssue) :
  StronglySorted (fun a b => (line b - line a <= 0)%Z) l -> NoDup (map line l) ->
  StronglySorted (fun a b => (line b < line a)%Z) l.
Proof.
  induction 1 as [|x r Hr IH Hx]; intros Hnd; constructor.
  - apply IH. cbn [map] in Hnd. apply NoDup_cons in Hnd as [_ Hnd]. exact Hnd.
  - cbn [map] in Hnd. apply NoDup_cons in Hnd as [Hne _].
    rewrite Forall_forall in Hx |- *. intros y Hy.
    specialize (Hx y Hy). cbv beta in Hx.
    assert (line y <> line x).
    { intros Heq. apply Hne. rewrite <- Heq.
      apply list_elem_of_In, in_map, list_elem_of_In. exact Hy. }
    lia.
Qed.

(** X10. Every issue that the analyzer marks as fixable has a fix: on the lines
    of the analyzed text, [applyFixesToFile] takes the line of the issue out,
    or replaces its first [var] by [const], which makes it two characters
    longer. The line is no [//] comment. *)
Theorem fixable_issue_has_fix (content filePath : string) (i : CodeIssue) :
  In i (analyzeFile content filePath) -> autoFixable i = true ->
  exists n l,
    split_lines content !! n = Some l /\ line i = (Z.of_nat n + 1)%Z
    /\ notCommented l = true
    /\ fixLine (split_lines content) i
       = take n (split_lines content) ++ fixOf i l ++ drop (S n) (split_lines content)
    /\ (fixOf i l = []
        \/ (fixOf i l = [replace varKeyword "const" l]
            /\ String.length (replace varKeyword "const" l) = String.length l + 2)).
Proof.
  intros Hi Hfix.
  destruct (fixable_origin content filePath i Hi Hfix)
    as (n & l & Hl & Hline & Hnc & Hkind).
  exists n, l. repeat split; [exact Hl | exact Hline | exact Hnc | |].
  - apply fixLine_at; assumption.
  - unfold fixOf. destruct Hkind as [[Hcat Htest] | [Hcat Htest]]; rewrite Hcat.
    + left. cbn [String.eqb Ascii.eqb Bool.eqb andb].
      destruct (test false consoleLog l) eqn:Hconsole; [reflexivity|].
      destruct Htest as [Htest|Htest].
      * apply (test_from_prefix false (lit "console.log")) in Htest.
        unfold test, consoleLog in Hconsole. congruence.
      * rewrite Htest. reflexivity.
    + right. cbn [String.eqb Ascii.eqb Bool.eqb andb]. rewrite Htest.
      split; [reflexivity|].
      apply replace_varKeyword_length, test_varDeclaration_keyword. exact Htest.
Qed.

Lemma fixable_issue_has_fix_witness :
  exists n l,
    split_lines "  var total = 0;" !! n = Some l /\ n = 0
    /\ fixOf (nth 0 (analyzeFile "  var total = 0;" "a.js") (issueAt low 0 "")) l
       = ["  const total = 0;"].
Proof.
  destruct (fixable_issue_has_fix "  var total = 0;" "a.js"
              (nth 0 (analyzeFile "  var total = 0;" "a.js") (issueAt low 0 "")))
    as (n & l & Hl & Hline & _ & _ & _); [vm_compute; auto | reflexivity |].
  exists n, l. split; [exact Hl|].
  assert (line (nth 0 (analyzeFile "  var total = 0;" "a.js") (issueAt low 0 "")) = 1%Z)
    as Hfirst by (vm_compute; reflexivity).
  assert (n = 0) as -> by lia.
  split; [reflexivity|].
  vm_compute in Hl. injection Hl as <-. vm_compute. reflexivity.
Defined.

(** X11. When no two of the issues name the same line, [applyFixesToFile] does
    to each line of the text what the fix of the issue that names it does,
    and leaves the other lines as they are: taking the issues from the last
    line up keeps the line numbers of the issues still to come. *)
Theorem fixes_on_distinct_lines (content : string) (issues : list CodeIssue) :
  NoDup (map line issues) ->
  applyFixesToFile content issues
  = join_lines (concat (imap (fixedAt issues) (split_lines content))).
Proof.
  intros Hnd. unfold applyFixesToFile. cbv zeta. f_equal.
  set (cmp := fun a b : CodeIssue => (line b - line a)%Z).
  pose proof (array_sort_Permutation cmp issues) as Hperm.
  assert (NoDup (map line (array_sort cmp issues))) as Hnd'.
  { pose proof (Permutation_map line Hperm) as Hp. rewrite Hp. exact Hnd. }
  rewrite fold_fixLine.
  - f_equal. apply imap_ext. intros n l _. unfold fixedAt.
    rewrite (find_line_Permutation _ _ _ Hperm Hnd'). reflexivity.
  - apply descending_strict; [|exact Hnd'].
    eapply StronglySorted_weaken; [|apply (array_sort_sorted cmp)].
    + intros a b H. exact H.
    + unfold cmp. intros; lia.
    + unfold cmp. intros; lia.
Qed.

Lemma fixes_on_distinct_lines_witness :
  applyFixesToFile sampleSource (fixableIssues sampleSource "a.js")
  = join_lines ["const total = 0;"; "// console.log(total)"; "export default total;"].
Proof.
  rewrite (fixes_on_distinct_lines sampleSource (fixableIssues sampleSource "a.js")).
  - vm_compute. reflexivity.
  - vm_compute. apply NoDup_cons. split; [|apply NoDup_singleton].
    intros H. apply list_elem_of_singleton in H. discriminate H.
Defined.

(** X12. Issues of a category other than Code Quality and Best Practices change
    nothing: the text comes back byte for byte. So does it with no issue. *)
Theorem other_categories_change_nothing (content : string) (issues : list CodeIssue) :
  Forall (fun i => category i <> "Code Quality" /\ category i <> "Best Practices") issues ->
  applyFixesToFile content issues = content.
Proof.
  intros Hcat. unfold applyFixesToFile. cbv zeta.
  set (cmp := fun a b : CodeIssue => (line b - line a)%Z).
  assert (Forall (fun i => category i <> "Code Quality"
                           /\ category i <> "Best Practices") (array_sort cmp issues))
    as Hsorted.
  { rewrite Forall_forall in Hcat |- *. intros i Hi. apply Hcat.
    rewrite <- (array_sort_Permutation cmp issues). exact Hi. }
  assert (forall lines, fold_left fixLine (array_sort cmp issues) lines = lines) as Hfold.
  { induction Hsorted as [|i rest [Hq Hb] _ IH]; intros lines; [reflexivity|].
    cbn [fold_left]. rewrite <- (IH lines) at 2. f_equal.
    unfold fixLine. cbv zeta.
    apply String.eqb_neq in Hq, Hb. rewrite Hq, Hb. cbn [andb].
    repeat match goal with |- context [if ?b then _ else _] => destruct b end;
      reflexivity. }
  rewrite Hfold. apply join_split.
Qed.

Lemma other_categories_change_nothing_witness :
  applyFixesToFile "eval(input);" (analyzeFile "eval(input);" "a.js") = "eval(input);".
Proof.
  apply (other_categories_change_nothing "eval(input);").
  vm_compute. repeat constructor; discriminate.
Defined.

End fixer_facts.

(** ** [DevOpsAgent]: [reviewCode] and [applyFixes] *)

Section agent_facts.

Import AIDevOpsAgent CodeAnalyzer DevOpsAgent.

(** One step of [applyFixes], by the outcome for the file. *)
Lemma fixFile_outcome (run : FixRun) (file_ : string) :
  fixFile run file_
  = match outcomeOf (disk run) file_ with
    | untouched => run
    | rewritten text n =>
        {| disk := {| files := <[file_ := text]> (files (disk run));
                      readOnly := readOnly (disk run) |};
           fixed := fixed run + n; failed := failed run |}
    | unfixed => {| disk := disk run; fixed := fixed run; failed := S (failed run) |}
    end.
Proof.
  unfold fixFile, outcomeOf, readFile, writeFile, fixableIssues.
  destruct (files (disk run) !! file_) as [content|]; cbn [bind]; [|reflexivity].
  destruct (0 <? length _); [|reflexivity].
  destruct (decide (file_ ∈ readOnly (disk run))); reflexivity.
Qed.

Lemma outcomeOf_agree (fs fs' : FileSystem) (path : string) :
  files fs' !! path = files fs !! path -> readOnly fs' = readOnly fs ->
  outcomeOf fs' path = outcomeOf fs path.
Proof. unfold outcomeOf. intros -> ->. reflexivity. Qed.

(** The files being distinct, each is handled as the disk had it at the
    start. *)
Lemma fold_fixFile (found : list string) (run : FixRun) :
  NoDup found ->
  readOnly (disk (fold_left fixFile found run)) = readOnly (disk run)
  /\ (forall path,
        files (disk (fold_left fixFile found run)) !! path
        = match outcomeOf (disk run) path with
          | rewritten text _ =>
              if decide (path ∈ found) then Some text else files (disk run) !! path
          | _ => files (disk run) !! path
          end)
  /\ fixed (fold_left fixFile found run)
     = fixed run + sum_list (map (fun f => fixedBy (outcomeOf (disk run) f)) found)
  /\ failed (fold_left fixFile found run)
     = failed run + sum_list (map (fun f => failedBy (outcomeOf (disk run) f)) found).
Proof.
  intros Hnd. revert run. induction Hnd as [|f rest Hf Hnd IH]; intros run.
  - cbn [fold_left map sum_list]. repeat split; [|unfold id; lia|unfold id; lia].
    intros path. destruct (outcomeOf (disk run) path); [reflexivity| |reflexivity].
    destruct (decide (path ∈ [])) as [H|]; [inversion H | reflexivity].
  - cbn [fold_left map sum_list].
    destruct (IH (fixFile run f)) as (Hro & Hfiles & Hfixed & Hfailed).
    assert (readOnly (disk (fixFile run f)) = readOnly (disk run)) as Hro1.
    { rewrite fixFile_outcome. destruct (outcomeOf (disk run) f); reflexivity. }
    assert (forall path, path <> f ->
              files (disk (fixFile run f)) !! path = files (disk run) !! path) as Hother.
    { intros path Hne. rewrite fixFile_outcome.
      destruct (outcomeOf (disk run) f); cbn [disk files]; try reflexivity.
      apply lookup_insert_ne. congruence. }
    assert (forall path, path <> f ->
              outcomeOf (disk (fixFile run f)) path = outcomeOf (disk run) path) as Hout.
    { intros path Hne. apply outcomeOf_agree; [apply Hother; exact Hne | exact Hro1]. }
    assert (forall g : Outcome -> nat,
              map (fun p => g (outcomeOf (disk (fixFile run f)) p)) rest
              = map (fun p => g (outcomeOf (disk run) p)) rest) as Hmap.
    { intros g. apply map_ext_in. intros p Hp. rewrite Hout; [reflexivity|].
      intros ->. apply Hf, list_elem_of_In. exact Hp. }
    split; [congruence|]. split; [|split].
    + intros path. rewrite Hfiles.
      destruct (decide (path = f)) as [->|Hne].
      * destruct (decide (f ∈ rest)) as [|_]; [contradiction|].
        destruct (decide (f ∈ f :: rest)) as [_|Hn];
          [|exfalso; apply Hn, list_elem_of_here].
        assert (files (disk (fixFile run f)) !! f
                = match outcomeOf (disk run) f with
                  | rewritten text _ => Some text
                  | _ => files (disk run) !! f
                  end) as Hf1.
        { rewrite fixFile_outcome.
          destruct (outcomeOf (disk run) f); cbn [disk files]; try reflexivity.
          apply lookup_insert_eq. }
        destruct (outcomeOf (disk (fixFile run f)) f) eqn:Ho1; rewrite Hf1; reflexivity.
      * rewrite (Hout path Hne), (Hother path Hne).
        destruct (outcomeOf (disk run) path); try reflexivity.
        destruct (decide (path ∈ rest)) as [Hin|Hnin];
          destruct (decide (path ∈ f :: rest)) as [Hin'|Hnin']; try reflexivity.
        -- exfalso. apply Hnin'. apply list_elem_of_further. exact Hin.
        -- exfalso. apply elem_of_cons in Hin' as [?|?]; contradiction.
    + rewrite Hfixed, Hmap, fixFile_outcome.
      destruct (outcomeOf (disk run) f); cbn [fixed fixedBy]; unfold id; lia.
    + rewrite Hfailed, Hmap, fixFile_outcome.
      destruct (outcomeOf (disk run) f); cbn [failed failedBy]; unfold id; lia.
Qed.

(** The issues that a review collects are those of the readable files. *)
Lemma fold_reviewFile (fs : FileSystem) (found : list string) (start : list CodeIssue)
    (i : CodeIssue) :
  In i (fold_left (reviewFile fs) found start) <->
  In i start
  \/ exists file_ content,
       In file_ found /\ files fs !! file_ = Some content
       /\ In i (analyzeFile content file_).
Proof.
  revert start. induction found as [|f rest IH]; intros start; cbn [fold_left].
  - split; [auto | intros [H | (f & c & [] & _)]; exact H].
  - rewrite IH. unfold reviewFile, readFile.
    destruct (files fs !! f) as [content|] eqn:Hf.
    + rewrite in_app_iff. split.
      * intros [[H|H] | (f' & c & Hin & Hc & H)]; [auto| |].
        -- right. exists f, content. split; [left; reflexivity | auto].
        -- right. exists f', c. split; [right; exact Hin | auto].
      * intros [H | (f' & c & [<-|Hin] & Hc & H)]; [auto| |].
        -- rewrite Hf in Hc. injection Hc as <-. auto.
        -- right. exists f', c. auto.
    + split.
      * intros [H | (f' & c & Hin & Hc & H)]; [auto|].
        right. exists f', c. split; [right; exact Hin | auto].
      * intros [H | (f' & c & [<-|Hin] & Hc & H)]; [auto| |].
        -- rewrite Hf in Hc. discriminate.
        -- right. exists f', c. auto.
Qed.

Section with_search.

Variable pathJoin : string -> string -> string.
Variable glob : string -> list string -> exn (list string).
Variable config : AgentConfig.

(** X13. A review reports, for every file that the search found and that can be
    read, the issues of its text, and no others; it counts every file found,
    readable or not. Each issue names a file that was found and a line that
    the file has, and quotes that line. *)
Theorem review_reports_found_files (now : string) (fs : FileSystem)
    (report : ReviewReport) :
  reviewCode pathJoin glob config now fs = Ok report ->
  exists found,
    findFiles pathJoin glob config = Ok found
    /\ filesAnalyzed report = length found
    /\ totalIssues (report_summary report) = length (report_issues report)
    /\ (forall i, In i (report_issues report) <->
          exists file_ content,
            In file_ found /\ files fs !! file_ = Some content
            /\ In i (analyzeFile content file_))
    /\ (forall i, In i (report_issues report) ->
          In (file i) found
          /\ exists content n l,
               files fs !! file i = Some content
               /\ split_lines content !! n = Some l
               /\ line i = (Z.of_nat n + 1)%Z /\ code i = Some (trim l)).
Proof.
  unfold reviewCode. intros H. apply bind_Ok in H as (found & Hfound & H).
  injection H as <-. exists found. cbn [filesAnalyzed report_summary totalIssues
    report_issues generateReport].
  assert (forall i, In i (fold_left (reviewFile fs) found []) <->
            exists file_ content,
              In file_ found /\ files fs !! file_ = Some content
              /\ In i (analyzeFile content file_)) as Hiff.
  { intros i. rewrite fold_reviewFile. split; [intros [[]|H]; exact H | auto]. }
  repeat split; try reflexivity; try exact Hfound; try apply Hiff.
  - apply Hiff in H as (f & content & Hin & Hc & Hi).
    apply analyzeFile_In in Hi as (rule & Hrule & Hi).
    destruct (check_reportedBy _ _ _ _ Hrule Hi) as (n & l & _ & -> & _). exact Hin.
  - apply Hiff in H as (f & content & Hin & Hc & Hi).
    apply analyzeFile_In in Hi as (rule & Hrule & Hi).
    destruct (check_reportedBy _ _ _ _ Hrule Hi)
      as (n & l & Hl & -> & Hline & Hcode & _).
    exists content, n, l. auto.
Qed.

(** X14. [applyFixes] handles each file found as the disk had it at the start:
    a file without a fixable issue is left alone; a file with [n] of them is
    overwritten with its fixed text and adds [n] to [fixed]; a file that
    cannot be read, or that has fixable issues and rejects the write, is left
    as it was and adds one to [failed]. No other path changes, no file is
    created or removed, and no file is made writable or read-only. *)
Theorem applyFixes_outcomes (fs : FileSystem) (run : FixRun) :
  applyFixes pathJoin glob config fs = Ok run ->
  exists found,
    findFiles pathJoin glob config = Ok found
    /\ readOnly (disk run) = readOnly fs
    /\ (forall path,
          files (disk run) !! path
          = match outcomeOf fs path with
            | rewritten text _ =>
                if decide (path ∈ found) then Some text else files fs !! path
            | _ => files fs !! path
            end)
    /\ (forall path, is_Some (files (disk run) !! path) <-> is_Some (files fs !! path))
    /\ fixed run = sum_list (map (fun f => fixedBy (outcomeOf fs f)) found)
    /\ failed run = sum_list (map (fun f => failedBy (outcomeOf fs f)) found).
Proof.
  unfold applyFixes. intros H. apply bind_Ok in H as (found & Hfound & H).
  injection H as <-. exists found.
  destruct (fold_fixFile found {| disk := fs; fixed := 0; failed := 0 |}
              (findFiles_NoDup _ _ _ _ Hfound)) as (Hro & Hfiles & Hfixed & Hfailed).
  cbn [disk fixed failed] in *.
  repeat split; try assumption.
  - rewrite Hfiles. unfold outcomeOf.
    destruct (files fs !! path) as [content|] eqn:Hc; [|intros H; exact H].
    intros _. eauto.
  - rewrite Hfiles. unfold outcomeOf.
    destruct (files fs !! path) as [content|] eqn:Hc; [|intros H; exact H].
    intros _. cbv zeta. destruct (0 <? _); [|eauto].
    destruct (decide (path ∈ readOnly fs)); [eauto|].
    destruct (decide (path ∈ found)); eauto.
Qed.

End with_search.

Lemma review_reports_found_files_witness :
  exists report,
    reviewCode joinPath overlapping sampleConfig "2024-01-01T00:00:00.000Z" sampleDisk
    = Ok report
    /\ filesAnalyzed report = 3 /\ totalIssues (report_summary report) = 3.
Proof.
  destruct (reviewCode joinPath overlapping sampleConfig "2024-01-01T00:00:00.000Z"
              sampleDisk) as [report|e] eqn:H; [|vm_compute in H; discriminate H].
  exists report. split; [reflexivity|].
  destruct (review_reports_found_files _ _ _ _ _ _ H)
    as (found & Hfound & Hn & Htotal & _).
  assert (found = ["/p/src/a.ts"; "/p/src/b.ts"; "/p/src/c.js"]) as ->
    by (vm_compute in Hfound; congruence).
  split; [exact Hn|].
  rewrite Htotal. vm_compute in H. injection H as <-. reflexivity.
Defined.

Lemma applyFixes_outcomes_witness :
  exists run,
    applyFixes joinPath overlapping sampleConfig sampleDisk = Ok run
    /\ fixed run = 2 /\ failed run = 2.
Proof.
  destruct (applyFixes joinPath overlapping sampleConfig sampleDisk) as [run|e] eqn:H;
    [|vm_compute in H; discriminate H].
  exists run. split; [reflexivity|].
  destruct (applyFixes_outcomes _ _ _ _ _ H)
    as (found & Hfound & _ & _ & _ & Hfixed & Hfailed).
  assert (found = ["/p/src/a.ts"; "/p/src/b.ts"; "/p/src/c.js"]) as ->
    by (vm_compute in Hfound; congruence).
  rewrite Hfixed, Hfailed. split; vm_compute; reflexivity.
Defined.

(** Two fixable issues on one line: the second fix acts on the line that
    has moved up, here a comment. *)
Example second_fix_on_a_line_reaches_the_next :
  map line (fixableIssues crowdedSource "a.js") = [1%Z; 1%Z]
  /\ applyFixesToFile crowdedSource (fixableIssues crowdedSource "a.js")
     = "export default total;".
Proof. split; vm_compute; reflexivity. Qed.

End agent_facts.

(** ** [AIDevOpsAgent]: [reviewCode] *)

Section review_facts.

Import AIDevOpsAgent.

Variable pathJoin : string -> string -> string.
Variable glob : string -> list string -> exn (list string).
Variable staticAnalyzer : string -> string -> list CodeIssue.
Variable fs : FileSystem.

Lemma fold_analyzeStatically (found : list string) (start : list CodeIssue)
    (i : CodeIssue) :
  In i (fold_left (analyzeStatically staticAnalyzer fs) found start) <->
  In i start
  \/ exists file_ content,
       In file_ found /\ files fs !! file_ = Some content
       /\ In i (staticAnalyzer content file_).
Proof.
  revert start. induction found as [|f rest IH]; intros start; cbn [fold_left].
  - split; [auto | intros [H | (f & c & [] & _)]; exact H].
  - rewrite IH. unfold analyzeStatically, readFile.
    destruct (files fs !! f) as [content|] eqn:Hf.
    + rewrite in_app_iff. split.
      * intros [[H|H] | (f' & c & Hin & Hc & H)]; [auto| |].
        -- right. exists f, content. split; [left; reflexivity | auto].
        -- right. exists f', c. split; [right; exact Hin | auto].
      * intros [H | (f' & c & [<-|Hin] & Hc & H)]; [auto| |].
        -- rewrite Hf in Hc. injection Hc as <-. auto.
        -- right. exists f', c. auto.
    + split.
      * intros [H | (f' & c & Hin & Hc & H)]; [auto|].
        right. exists f', c. split; [right; exact Hin | auto].
      * intros [H | (f' & c & [<-|Hin] & Hc & H)]; [auto| |].
        -- rewrite Hf in Hc. discriminate.
        -- right. exists f', c. auto.
Qed.

(** What the model contributes for a file: the issues of its reply, when
    the file can be read, is not too long and the request succeeds. *)
Lemma analyzeWithAI_cases (analyzeCode : string -> string -> exn (list CodeIssue))
    (start : list CodeIssue) (f : string) :
  (exists content issues,
     files fs !! f = Some content
     /\ (Z.of_nat (utf16_length content) <= 50000)%Z
     /\ analyzeCode content f = Ok issues
     /\ analyzeWithAI fs analyzeCode start f = start ++ issues)
  \/ (analyzeWithAI fs analyzeCode start f = start
      /\ forall content issues,
           files fs !! f = Some content ->
           (Z.of_nat (utf16_length content) <= 50000)%Z ->
           analyzeCode content f = Ok issues -> False).
Proof.
  unfold analyzeWithAI, readFile.
  destruct (files fs !! f) as [content|] eqn:Hf; cbn [bind];
    [|right; split; [reflexivity | intros ? ? [=]]].
  destruct (Z.ltb_spec 50000 (Z.of_nat (utf16_length content))) as [Hlong|Hshort].
  - right. split; [reflexivity|]. intros c issues [= <-] Hc _. lia.
  - destruct (analyzeCode content f) as [issues|e] eqn:Ha; cbn [bind].
    + left. exists content, issues. auto.
    + right. split; [reflexivity|]. intros c issues [= <-] _ Ha'. congruence.
Qed.

Lemma fold_analyzeWithAI (analyzeCode : string -> string -> exn (list CodeIssue))
    (found : list string) (start : list CodeIssue) (i : CodeIssue) :
  In i (fold_left (analyzeWithAI fs analyzeCode) found start) <->
  In i start
  \/ exists file_ content issues,
       In file_ found /\ files fs !! file_ = Some content
       /\ (Z.of_nat (utf16_length content) <= 50000)%Z
       /\ analyzeCode content file_ = Ok issues /\ In i issues.
Proof.
  revert start. induction found as [|f rest IH]; intros start; cbn [fold_left].
  - split; [auto | intros [H | (f & c & l & [] & _)]; exact H].
  - rewrite IH.
    destruct (analyzeWithAI_cases analyzeCode start f)
      as [(content & issues & Hf & Hlen & Ha & ->) | [-> Hnone]].
    + rewrite in_app_iff. split.
      * intros [[H|H] | (f' & c & l & Hin & H)]; [auto| |].
        -- right. exists f, content, issues. split; [left; reflexivity | auto].
        -- right. exists f', c, l. split; [right; exact Hin | exact H].
      * intros [H | (f' & c & l & [<-|Hin] & Hc & Hlen' & Ha' & H)]; [auto| |].
        -- rewrite Hf in Hc. injection Hc as <-. rewrite Ha in Ha'.
           injection Ha' as <-. auto.
        -- right. exists f', c, l. auto.
    + split.
      * intros [H | (f' & c & l & Hin & H)]; [auto|].
        right. exists f', c, l. split; [right; exact Hin | exact H].
      * intros [H | (f' & c & l & [<-|Hin] & Hc & Hlen' & Ha' & H)]; [auto| |].
        -- destruct (Hnone c l Hc Hlen' Ha').
        -- right. exists f', c, l. auto.
Qed.


(** X15. The issues that the model contributes to a review come from the first
    twenty files found, from those of them that can be read and hold at
    most 50000 code units, and from the requests that succeed; a file that
    fails takes nothing from the others. *)
Theorem runAIAnalysis_sources (analyzeCode : string -> string -> exn (list CodeIssue))
    (found : list string) (i : CodeIssue) :
  In i (runAIAnalysis (Some analyzeCode) fs found) <->
  exists file_ content issues,
    In file_ (take 20 found) /\ files fs !! file_ = Some content
    /\ (Z.of_nat (utf16_length content) <= 50000)%Z
    /\ analyzeCode content file_ = Ok issues /\ In i issues.
Proof.
  unfold runAIAnalysis, maxFilesForAI. cbv zeta. rewrite fold_analyzeWithAI.
  split; [intros [[]|H]; exact H | auto].
Qed.


End review_facts.

